(** * wire_client.c: the HTTP query forwarder

    A shallow embedding of [wire_client.c] (the client shim that posts a
    query string to [<base>/execute_query] through libcurl and returns the
    response body) together with the properties of its four entry points.

    The C code is read as a state-passing program over a small memory
    model: heap blocks addressed by their base pointer, the static
    [server_url], the transfers handed to libcurl and the lines printed on
    the console.  Behaviour the C standard leaves undefined (a write past
    the end of a block, a read of a string that has no terminator) is the
    outcome [Undefined].

    The program ends where it calls libcurl.  What is recorded of a
    transfer is what the program configured on the handle it passes to
    [curl_easy_perform]; what libcurl, the network and the server make of
    it (a URL refused, headers added, a response or none) is the
    environment's part, a [transport]. *)

From Stdlib Require Import ZArith Strings.String Strings.Byte Lia.
From stdpp Require Import base option list gmap.

Open Scope Z_scope.

(** ** Bytes and strings *)

Definition bytes (s : string) : list byte := list_byte_of_string s.

Definition NUL : byte := x00.
Definition dquote : byte := x22.
Definition backslash : byte := x5c.

#[global] Instance byte_eq_decision : EqDecision byte := Byte.byte_eq_dec.

(** [size_t] arithmetic wraps around modulo 2^64 (an LP64 platform). *)
Definition SIZE_WIDTH : Z := 64.
Definition size_t (z : Z) : Z := z mod 2 ^ SIZE_WIDTH.

Definition len {A} (l : list A) : Z := Z.of_nat (length l).

(** ** Memory *)

(** A cell of an allocated block: a byte, or the indeterminate value a
    fresh allocation holds. *)
Inductive memval : Type :=
  | Undef
  | Byte (b : byte).

#[global] Instance memval_eq_decision : EqDecision memval.
Proof. solve_decision. Defined.

(** A [char*]: [None] is the null pointer, [Some b] the base of block [b]
    (blocks are numbered). *)
Definition ptr : Type := option nat.
Definition NULL : ptr := None.

(** One transfer as the program hands it to [curl_easy_perform]: the
    options it has set on the handle.  [req_post] is [CURLOPT_POST],
    [req_url] the string given for [CURLOPT_URL], [req_headers] the list
    given for [CURLOPT_HTTPHEADER] and [req_body] the string behind
    [CURLOPT_POSTFIELDS].  This is not the request on the wire: libcurl
    sends nothing when it refuses the URL, and to a request it does send it
    adds headers of its own (Host, Accept, Content-Length). *)
Record request : Type := {
  req_post : bool;
  req_url : list byte;
  req_headers : list (list byte);
  req_body : list byte;
}.

(** Lines written to stdout / stderr. *)
Inductive diagnostic : Type :=
  | NotEnoughMemory
  | PerformFailed (code : Z).

(** The state of the process and of what surrounds it: the live heap
    blocks with their contents, the static variable [server_url], the
    outcomes the allocator has in store for the coming calls of [realloc]
    ([true]: the call returns NULL), the transfers handed to
    [curl_easy_perform] so far ([net], in the order of the calls) and the
    lines printed so far. *)
Record world : Type := {
  heap : gmap nat (list memval);
  server_url : ptr;
  realloc_faults : list bool;
  net : list request;
  console : list diagnostic;
}.

Definition set_heap (h : gmap nat (list memval)) (w : world) : world :=
  {| heap := h; server_url := server_url w; realloc_faults := realloc_faults w;
     net := net w; console := console w |}.
Definition set_server_url (p : ptr) (w : world) : world :=
  {| heap := heap w; server_url := p; realloc_faults := realloc_faults w;
     net := net w; console := console w |}.
Definition set_realloc_faults (f : list bool) (w : world) : world :=
  {| heap := heap w; server_url := server_url w; realloc_faults := f;
     net := net w; console := console w |}.
Definition set_net (n : list request) (w : world) : world :=
  {| heap := heap w; server_url := server_url w; realloc_faults := realloc_faults w;
     net := n; console := console w |}.
Definition set_console (c : list diagnostic) (w : world) : world :=
  {| heap := heap w; server_url := server_url w; realloc_faults := realloc_faults w;
     net := net w; console := c |}.

(** The state of the process before [main]: nothing allocated,
    [server_url = NULL], nothing sent or printed. *)
Definition initial_world : world :=
  {| heap := ∅; server_url := NULL; realloc_faults := []; net := []; console := [] |}.

(** ** The monad of C computations *)

Inductive outcome (A : Type) : Type :=
  | Done (a : A)
  | Undefined.
Arguments Done {A} a.
Arguments Undefined {A}.

Definition M (A : Type) : Type := world → outcome (A * world).

#[global] Instance M_ret : MRet M := λ A a w, Done (a, w).
#[global] Instance M_bind : MBind M := λ A B k m w,
  match m w with
  | Done (a, w') => k a w'
  | Undefined => Undefined
  end.

Definition undefined {A} : M A := λ _, Undefined.
Definition gets {A} (f : world → A) : M A := λ w, Done (f w, w).
Definition modify (f : world → world) : M unit := λ w, Done (tt, f w).

(** ** The C library *)

(** The string that starts at the beginning of a block: the bytes before
    the first NUL.  There is none when an indeterminate cell or the end of
    the block comes first. *)
Fixpoint read_cstring (cells : list memval) : option (list byte) :=
  match cells with
  | [] => None
  | Undef :: _ => None
  | Byte b :: rest =>
      if decide (b = NUL) then Some [] else cons b <$> read_cstring rest
  end.

Definition load_cstring (p : ptr) : M (list byte) := λ w,
  match p with
  | None => Undefined
  | Some b =>
      match heap w !! b ≫= read_cstring with
      | Some s => Done (s, w)
      | None => Undefined
      end
  end.

(** Writing [data] at offset [off] of the block at [p]. *)
Definition store_bytes (p : ptr) (off : Z) (data : list byte) : M unit := λ w,
  match p with
  | None => Undefined
  | Some b =>
      match heap w !! b with
      | Some cells =>
          if decide (0 ≤ off ∧ off + len data ≤ len cells) then
            let cells' := take (Z.to_nat off) cells ++ (Byte <$> data)
                          ++ drop (Z.to_nat off + length data) cells in
            Done (tt, set_heap (<[b := cells']> (heap w)) w)
          else Undefined
      | None => Undefined
      end
  end.

(** [malloc] and [strdup] are used by the source without a test of their
    result; they are taken to succeed, as the source takes them. *)
Definition malloc (n : Z) : M ptr := λ w,
  let b := fresh (dom (heap w)) in
  Done (Some b, set_heap (<[b := replicate (Z.to_nat n) Undef]> (heap w)) w).

Definition free (p : ptr) : M unit := λ w,
  match p with
  | None => Done (tt, w)
  | Some b =>
      match heap w !! b with
      | Some _ => Done (tt, set_heap (delete b (heap w)) w)
      | None => Undefined
      end
  end.

(** [realloc] is the one allocation whose failure the source tests.  The
    next entry of [realloc_faults] says whether the call returns NULL
    (leaving the old block as it is); with no entry left it succeeds.  A
    successful call moves the contents to a new block and releases the old
    one, as [realloc] is free to do; the source never compares the two
    pointers. *)
Definition realloc (p : ptr) (n : Z) : M ptr := λ w,
  match realloc_faults w with
  | true :: rest => Done (NULL, set_realloc_faults rest w)
  | faults =>
      let w := set_realloc_faults (tail faults) w in
      let b' := fresh (dom (heap w)) in
      match p with
      | None =>
          Done (Some b', set_heap (<[b' := replicate (Z.to_nat n) Undef]> (heap w)) w)
      | Some b =>
          match heap w !! b with
          | Some cells =>
              Done (Some b',
                    set_heap (<[b' := resize (Z.to_nat n) Undef cells]>
                                (delete b (heap w))) w)
          | None => Undefined
          end
      end
  end.

(** An array with automatic storage ([char buf[n]]) is a block that lives
    from its declaration to the end of the enclosing compound statement. *)
Definition auto_array (n : Z) : M ptr := malloc n.
Definition end_of_scope (p : ptr) : M unit := free p.

Definition strlen (p : ptr) : M Z := s ← load_cstring p; mret (len s).

Definition strdup (p : ptr) : M ptr :=
  s ← load_cstring p;
  q ← malloc (len s + 1);
  _ ← store_bytes q 0 (s ++ [NUL]);
  mret q.

(** [sprintf] with a format made of literal text and [%s] conversions. *)
Inductive fmt_item : Type :=
  | Lit (s : list byte)
  | Str (arg : ptr).

Fixpoint format (f : list fmt_item) : M (list byte) :=
  match f with
  | [] => mret []
  | Lit s :: f' => r ← format f'; mret (s ++ r)
  | Str p :: f' => s ← load_cstring p; r ← format f'; mret (s ++ r)
  end.

Definition sprintf (dst : ptr) (f : list fmt_item) : M Z :=
  s ← format f;
  _ ← store_bytes dst 0 (s ++ [NUL]);
  mret (len s).

Definition memcpy (dst : ptr) (off : Z) (src : list byte) (n : Z) : M unit :=
  if decide (n ≤ len src) then store_bytes dst off (take (Z.to_nat n) src)
  else undefined.

Definition printf (d : diagnostic) : M unit :=
  modify (λ w, set_console (console w ++ [d]) w).

(** ** libcurl *)

Definition CURLE_OK : Z := 0.
Definition CURLE_URL_MALFORMAT : Z := 3.
Definition CURLE_WRITE_ERROR : Z := 23.

(** What the program cannot decide: whether [curl_easy_init] yields a
    handle, and what becomes of a transfer once it is handed over, namely
    the chunks of a response body libcurl passes to the write callback, in
    the order they arrive, and the [CURLcode] the transfer ends with when
    no write callback stops it.  [respond] stands for libcurl, the network
    and the server together: a transfer libcurl refuses, or one that
    nothing answers, has no chunk and a code other than [CURLE_OK]. *)
Record transport : Type := {
  easy_init_ok : bool;
  respond : request → list (list byte) * Z;
}.




(** The options of an easy handle that [execute_query] sets.  libcurl
    copies the string given for [CURLOPT_URL] and keeps only the pointer
    given for [CURLOPT_POSTFIELDS]. *)
Record CURL : Type := {
  opt_url : option (list byte);
  opt_post : bool;
  opt_postfields : ptr;
  opt_httpheader : list (list byte);
}.

Definition curl_easy_init (env : transport) : M (option CURL) :=
  mret (if easy_init_ok env
        then Some {| opt_url := None; opt_post := false;
                     opt_postfields := NULL; opt_httpheader := [] |}
        else None).

Definition setopt_URL (curl : CURL) (p : ptr) : M CURL :=
  s ← load_cstring p;
  mret {| opt_url := Some s; opt_post := opt_post curl;
          opt_postfields := opt_postfields curl;
          opt_httpheader := opt_httpheader curl |}.

Definition setopt_POST (curl : CURL) (on : bool) : CURL :=
  {| opt_url := opt_url curl; opt_post := on;
     opt_postfields := opt_postfields curl;
     opt_httpheader := opt_httpheader curl |}.

Definition setopt_POSTFIELDS (curl : CURL) (p : ptr) : CURL :=
  {| opt_url := opt_url curl; opt_post := opt_post curl;
     opt_postfields := p; opt_httpheader := opt_httpheader curl |}.

Definition setopt_HTTPHEADER (curl : CURL) (h : list (list byte)) : CURL :=
  {| opt_url := opt_url curl; opt_post := opt_post curl;
     opt_postfields := opt_postfields curl; opt_httpheader := h |}.

(** Header lists are values here; the source never frees the one it
    builds. *)
Definition curl_slist_append (l : list (list byte)) (s : list byte)
  : list (list byte) := l ++ [s].

Section Perform.
Context {A : Type}.
(** [CURLOPT_WRITEFUNCTION] and the value of [CURLOPT_WRITEDATA]. *)
Variable writefunction : list byte → Z → Z → A → M (Z * A).

(** libcurl hands each chunk to the write callback as [len c] items of
    size 1 and abandons the transfer as soon as the callback returns
    another count than the one it was given.  The boolean tells whether
    every chunk was taken. *)
Fixpoint deliver (chunks : list (list byte)) (userp : A) : M (bool * A) :=
  match chunks with
  | [] => mret (true, userp)
  | c :: rest =>
      '(n, userp) ← writefunction c 1 (len c) userp;
      if decide (n = len c) then deliver rest userp else mret (false, userp)
  end.

(** A call of [curl_easy_perform] on a handle with a URL is entered in
    [net] with the options of the handle, whatever the URL: the entry says
    what the program asked for, and [respond] what came of it.  The body is
    read through the pointer of [CURLOPT_POSTFIELDS] at this point. *)
Definition curl_easy_perform (env : transport) (curl : CURL) (userp : A)
  : M (Z * A) :=
  match opt_url curl with
  | None => mret (CURLE_URL_MALFORMAT, userp)
  | Some u =>
      body ← (if opt_post curl then load_cstring (opt_postfields curl) else mret []);
      let rq := {| req_post := opt_post curl; req_url := u;
                   req_headers := opt_httpheader curl; req_body := body |} in
      _ ← modify (λ w, set_net (net w ++ [rq]) w);
      '(taken, userp) ← deliver (respond env rq).1 userp;
      mret (if taken : bool then (respond env rq).2 else CURLE_WRITE_ERROR, userp)
  end.
End Perform.

(** ** wire_client.c *)

Record MemoryStruct : Type := {
  memory : ptr;
  size : Z;
}.

(** The parameter [size] of the source is [item_size] here, the name
    [size] being the field of [MemoryStruct]. *)
Definition WriteMemoryCallback (contents : list byte) (item_size nmemb : Z)
    (mem : MemoryStruct) : M (Z * MemoryStruct) :=
  let realsize := size_t (item_size * nmemb) in
  p ← realloc (memory mem) (size_t (size mem + realsize + 1));
  match p with
  | None =>
      _ ← printf NotEnoughMemory;
      mret (0, mem)
  | Some _ =>
      let mem := {| memory := p; size := size mem |} in
      _ ← memcpy (memory mem) (size mem) contents realsize;
      let mem := {| memory := memory mem; size := size_t (size mem + realsize) |} in
      _ ← store_bytes (memory mem) (size mem) [NUL];
      mret (realsize, mem)
  end.

Definition initialize_connection (url : ptr) : M Z :=
  match url with
  | None => mret (-1)
  | Some _ =>
      p ← strdup url;
      _ ← modify (set_server_url p);
      mret 0
  end.

Definition POST_DATA_SIZE : Z := 1024.

Definition execute_query_path : list byte := bytes "/execute_query".
Definition post_data_open : list byte :=
  bytes "{" ++ [dquote] ++ bytes "query" ++ [dquote] ++ bytes ": " ++ [dquote].
Definition post_data_close : list byte := [dquote] ++ bytes "}".
Definition content_type_json : list byte := bytes "Content-Type: application/json".

Definition execute_query (env : transport) (query : ptr) : M ptr :=
  url ← gets server_url;
  if decide (url = NULL ∨ query = NULL) then mret NULL else
  p ← malloc 1;
  let chunk := {| memory := p; size := 0 |} in
  (* curl_global_init(CURL_GLOBAL_ALL): no effect on the state modelled *)
  curl ← curl_easy_init env;
  chunk ← match curl with
          | Some curl =>
              n ← strlen url;
              full_url ← malloc (size_t (n + 20));
              _ ← sprintf full_url [Str url; Lit execute_query_path];
              curl ← setopt_URL curl full_url;
              let curl := setopt_POST curl true in
              post_data ← auto_array POST_DATA_SIZE;
              _ ← sprintf post_data [Lit post_data_open; Str query; Lit post_data_close];
              let curl := setopt_POSTFIELDS curl post_data in
              let headers := curl_slist_append [] content_type_json in
              let curl := setopt_HTTPHEADER curl headers in
              '(res, chunk) ← curl_easy_perform WriteMemoryCallback env curl chunk;
              _ ← (if decide (res ≠ CURLE_OK) then printf (PerformFailed res)
                   else mret tt);
              (* curl_easy_cleanup(curl) *)
              _ ← free full_url;
              _ ← end_of_scope post_data;
              mret chunk
          | None => mret chunk
          end;
  (* curl_global_cleanup() *)
  mret (memory chunk).

Definition close_connection : M unit :=
  p ← gets server_url;
  match p with
  | Some _ =>
      _ ← free p;
      modify (set_server_url NULL)
  | None => mret tt
  end.

(** ** The caller's side *)

(** A string the calling program holds (a literal, a buffer it filled):
    a block of its own with the bytes and their terminator. *)
Definition caller_string (s : list byte) : M ptr :=
  p ← malloc (len s + 1);
  _ ← store_bytes p 0 (s ++ [NUL]);
  mret p.

(** ** Notions used by the specification *)

(** The NUL-terminated string [p] points to, when there is one. *)
Definition string_at (w : world) (p : ptr) : option (list byte) :=
  b ← p; cells ← heap w !! b; read_cstring cells.

Definition cstring_at (w : world) (p : ptr) (s : list byte) : Prop :=
  string_at w p = Some s.

(** The connection state: the base URL held through [server_url], if any. *)
Definition stored_url (w : world) : option (list byte) :=
  string_at w (server_url w).

(** The transfer [execute_query] configures for base URL [U] and query
    [Q]. *)
Definition query_request (U Q : list byte) : request :=
  {| req_post := true;
     req_url := U ++ execute_query_path;
     req_headers := [content_type_json];
     req_body := post_data_open ++ Q ++ post_data_close |}.

(** The chunks the write callback appends, for a given schedule of
    [realloc] failures: a failure on a non-empty chunk ends the transfer, a
    failure on an empty one goes unnoticed (the callback returns 0, the
    count it was given). *)
Fixpoint accepted (faults : list bool) (chunks : list (list byte)) {struct chunks}
  : list (list byte) :=
  match chunks with
  | [] => []
  | c :: rest =>
      match faults with
      | true :: faults' => if decide (len c = 0) then accepted faults' rest else []
      | _ => c :: accepted (tail faults) rest
      end
  end.

(** Whether at least one call of the callback got its block from [realloc]. *)
Fixpoint grown (faults : list bool) (chunks : list (list byte)) {struct chunks}
  : bool :=
  match chunks with
  | [] => false
  | c :: rest =>
      match faults with
      | true :: faults' => if decide (len c = 0) then grown faults' rest else false
      | _ => true
      end
  end.

(** *** JSON texts (RFC 8259), on bytes

    A JSON text is UTF-8 (RFC 8259, section 8.1): inside a string, a byte
    from 0x80 up is accepted only as part of a well-formed UTF-8 sequence
    (RFC 3629, section 4: no overlong form, no surrogate, nothing above
    U+10FFFF). *)

Definition is_ws (b : byte) : bool :=
  bool_decide (b = x20 ∨ b = x09 ∨ b = x0a ∨ b = x0d).

Definition is_digit (b : byte) : bool :=
  bool_decide (b ∈ [x30; x31; x32; x33; x34; x35; x36; x37; x38; x39]).

Definition is_hex (b : byte) : bool :=
  is_digit b
  || bool_decide (b ∈ [x41; x42; x43; x44; x45; x46; x61; x62; x63; x64; x65; x66]).

(** The characters that may follow a backslash, [u] apart: the quote, the
    backslash, the slash and the letters b, f, n, r, t. *)
Definition is_simple_escape (b : byte) : bool :=
  bool_decide (b ∈ [x22; x5c; x2f; x62; x66; x6e; x72; x74]).

Definition is_control (b : byte) : bool := bool_decide (Byte.to_N b < 32)%N.

Fixpoint skip_ws (l : list byte) : list byte :=
  match l with
  | b :: r => if is_ws b then skip_ws r else l
  | [] => []
  end.

Fixpoint skip_digits (l : list byte) : list byte :=
  match l with
  | b :: r => if is_digit b then skip_digits r else l
  | [] => []
  end.

(** The bytes of UTF-8 sequences, by their value. *)
Definition byte_in (lo hi : N) (b : byte) : bool :=
  bool_decide (lo ≤ Byte.to_N b ≤ hi)%N.

Definition is_ascii (b : byte) : bool := bool_decide (Byte.to_N b < 128)%N.

Definition utf8_tail (b : byte) : bool := byte_in 128 191 b.

(** The sequences of two, three and four bytes: [C2..DF] and a tail byte;
    [E0] with [A0..BF], [E1..EC] or [EE..EF] with a tail byte, [ED] with
    [80..9F], and one more tail byte; [F0] with [90..BF], [F1..F3] with a
    tail byte, [F4] with [80..8F], and two more tail bytes. *)
Definition utf8_2 (b c1 : byte) : bool := byte_in 194 223 b && utf8_tail c1.

Definition utf8_3 (b c1 c2 : byte) : bool :=
  (bool_decide (b = xe0) && byte_in 160 191 c1
   || byte_in 225 236 b && utf8_tail c1
   || bool_decide (b = xed) && byte_in 128 159 c1
   || byte_in 238 239 b && utf8_tail c1)
  && utf8_tail c2.

Definition utf8_4 (b c1 c2 c3 : byte) : bool :=
  (bool_decide (b = xf0) && byte_in 144 191 c1
   || byte_in 241 243 b && utf8_tail c1
   || bool_decide (b = xf4) && byte_in 128 143 c1)
  && utf8_tail c2 && utf8_tail c3.

(** Well-formed UTF-8: a sequence of such characters. *)
Fixpoint utf8 (l : list byte) : bool :=
  match l with
  | [] => true
  | b :: r =>
      if is_ascii b then utf8 r
      else
        match r with
        | c1 :: r1 =>
            if utf8_2 b c1 then utf8 r1
            else
              match r1 with
              | c2 :: r2 =>
                  if utf8_3 b c1 c2 then utf8 r2
                  else
                    match r2 with
                    | c3 :: r3 => if utf8_4 b c1 c2 c3 then utf8 r3 else false
                    | [] => false
                    end
              | [] => false
              end
        | [] => false
        end
  end.

(** The rest of a string after its opening quote; the result is what
    follows the closing quote.  A character is an escape, or a UTF-8
    sequence other than the quote, the backslash and the control
    characters. *)
Fixpoint json_chars (l : list byte) : option (list byte) :=
  match l with
  | [] => None
  | b :: r =>
      if decide (b = dquote) then Some r
      else if decide (b = backslash) then
        match r with
        | e :: r1 =>
            if is_simple_escape e then json_chars r1
            else if decide (e = x75) then
              match r1 with
              | h1 :: h2 :: h3 :: h4 :: r2 =>
                  if is_hex h1 && is_hex h2 && is_hex h3 && is_hex h4
                  then json_chars r2 else None
              | _ => None
              end
            else None
        | [] => None
        end
      else if is_control b then None
      else if is_ascii b then json_chars r
      else
        match r with
        | c1 :: r1 =>
            if utf8_2 b c1 then json_chars r1
            else
              match r1 with
              | c2 :: r2 =>
                  if utf8_3 b c1 c2 then json_chars r2
                  else
                    match r2 with
                    | c3 :: r3 =>
                        if utf8_4 b c1 c2 c3 then json_chars r3 else None
                    | [] => None
                    end
              | [] => None
              end
        | [] => None
        end
  end.

(** At least one digit, then any number of them. *)
Definition json_digits (l : list byte) : option (list byte) :=
  match l with
  | b :: r => if is_digit b then Some (skip_digits r) else None
  | [] => None
  end.

Definition json_number (l : list byte) : option (list byte) :=
  let l := match l with b :: r => if decide (b = x2d) then r else l | [] => l end in
  r ← match l with
      | b :: r => if decide (b = x30) then Some r else json_digits l
      | [] => None
      end;
  r ← match r with
      | b :: r1 => if decide (b = x2e) then json_digits r1 else Some r
      | [] => Some r
      end;
  match r with
  | b :: r1 =>
      if decide (b = x65 ∨ b = x45) then
        match r1 with
        | s :: r2 => if decide (s = x2b ∨ s = x2d) then json_digits r2 else json_digits r1
        | [] => None
        end
      else Some r
  | [] => Some r
  end.

Definition strip_prefix (p l : list byte) : option (list byte) :=
  if decide (take (length p) l = p) then Some (drop (length p) l) else None.

(** A value, the members of an object after its brace, the elements of an
    array after its bracket; each returns what follows. *)
Fixpoint json_value (fuel : nat) (l : list byte) : option (list byte) :=
  match fuel with
  | O => None
  | S n =>
      match l with
      | [] => None
      | b :: r =>
          if decide (b = dquote) then json_chars r
          else if decide (b = x7b) then
            match skip_ws r with
            | c :: r1 => if decide (c = x7d) then Some r1 else json_members n (skip_ws r)
            | [] => None
            end
          else if decide (b = x5b) then
            match skip_ws r with
            | c :: r1 => if decide (c = x5d) then Some r1 else json_elements n (skip_ws r)
            | [] => None
            end
          else if decide (b = x74) then strip_prefix (bytes "true") l
          else if decide (b = x66) then strip_prefix (bytes "false") l
          else if decide (b = x6e) then strip_prefix (bytes "null") l
          else json_number l
      end
  end
with json_members (fuel : nat) (l : list byte) : option (list byte) :=
  match fuel with
  | O => None
  | S n =>
      match l with
      | q :: r =>
          if decide (q = dquote) then
            r1 ← json_chars r;
            match skip_ws r1 with
            | c :: r2 =>
                if decide (c = x3a) then
                  r3 ← json_value n (skip_ws r2);
                  match skip_ws r3 with
                  | d :: r4 =>
                      if decide (d = x7d) then Some r4
                      else if decide (d = x2c) then json_members n (skip_ws r4)
                      else None
                  | [] => None
                  end
                else None
            | [] => None
            end
          else None
      | [] => None
      end
  end
with json_elements (fuel : nat) (l : list byte) : option (list byte) :=
  match fuel with
  | O => None
  | S n =>
      r1 ← json_value n l;
      match skip_ws r1 with
      | d :: r2 =>
          if decide (d = x5d) then Some r2
          else if decide (d = x2c) then json_elements n (skip_ws r2)
          else None
      | [] => None
      end
  end.

Definition json_text (l : list byte) : bool :=
  match json_value (S (length l)) (skip_ws l) with
  | Some r => bool_decide (skip_ws r = [])
  | None => false
  end.

(** ** Scenarios

    Concrete states and transports on which the properties below are
    exercised. *)

Definition exec {A} (m : M A) (w : world) : world :=
  match m w with
  | Done (_, w') => w'
  | Undefined => w
  end.

(** A program that holds the strings [U] (in block 0) and [Q] (in block 1)
    and has not called the library yet. *)
Definition holding (U Q : list byte) : world :=
  exec (caller_string Q) (exec (caller_string U) initial_world).

(** The same program after [initialize_connection(U)]: the copy of [U] is
    block 2. *)
Definition connected (U Q : list byte) : world :=
  exec (initialize_connection (Some 0%nat)) (holding U Q).

(** A transport that always has a handle and answers every transfer with
    the given chunks and status. *)
Definition answering (chunks : list (list byte)) (code : Z) : transport :=
  {| easy_init_ok := true; respond := λ _, (chunks, code) |}.


Definition CURLE_COULDNT_CONNECT : Z := 7.

Definition localhost : list byte := bytes "http://localhost:9000".
Definition select_1 : list byte := bytes "SELECT 1".

(** The transfers handed to libcurl by the end of a call, [[]] when the
    call has no defined outcome. *)
Definition sent {A} (o : outcome (A * world)) : list request :=
  match o with
  | Done (_, w') => net w'
  | Undefined => []
  end.

(** The text a caller reads from the pointer a call returned. *)
Definition returned_text (o : outcome (ptr * world)) : option (list byte) :=
  match o with
  | Done (r, w') => string_at w' r
  | Undefined => None
  end.

(** The block behind the pointer a call returned. *)
Definition returned_block (o : outcome (ptr * world)) : option (list memval) :=
  match o with
  | Done (Some b, w') => heap w' !! b
  | _ => None
  end.

(** The states the four operations keep the program in: [server_url] is
    null, or points to a string. *)
Definition connection_ok (w : world) : Prop :=
  server_url w = NULL ∨ ∃ U, cstring_at w (server_url w) U.

(** The arguments a caller may pass for a [const char*]: null, or a string. *)
Definition argument_ok (w : world) (p : ptr) : Prop :=
  p = NULL ∨ ∃ s, cstring_at w p s.

(** The states of a program that uses the library through its four
    operations.  It places strings of its own, passes them (or null) to the
    operations, writes to and frees the blocks it holds a pointer to (never
    the one behind [server_url], which no operation hands out); the
    allocator's schedule is whatever the environment makes it. *)
Inductive reachable : world → Prop :=
  | reach_initial : reachable initial_world
  | reach_caller_string w s p w' :
      reachable w → caller_string s w = Done (p, w') → reachable w'
  | reach_store w p off data w' :
      reachable w → p ≠ server_url w →
      store_bytes p off data w = Done (tt, w') → reachable w'
  | reach_free w p w' :
      reachable w → p ≠ server_url w → free p w = Done (tt, w') → reachable w'
  | reach_faults w f : reachable w → reachable (set_realloc_faults f w)
  | reach_initialize w url rc w' :
      reachable w → argument_ok w url →
      initialize_connection url w = Done (rc, w') → reachable w'
  | reach_execute w env query r w' :
      reachable w → argument_ok w query →
      execute_query env query w = Done (r, w') → reachable w'
  | reach_close w w' :
      reachable w → close_connection w = Done (tt, w') → reachable w'.

(** The request body in the words of the specification: the query between
    the two halves of a JSON object literal. *)
Definition json_wrap (Q : list byte) : list byte :=
  bytes "{" ++ [dquote] ++ bytes "query" ++ [dquote] ++ bytes ": " ++ [dquote]
  ++ Q ++ [dquote] ++ bytes "}".

(** Queries that carry the two characters JSON wants escaped. *)
Definition query_newline_escape : list byte :=
  bytes "SELECT '" ++ [backslash] ++ bytes "n'".
Definition query_closing_quote : list byte :=
  [dquote] ++ bytes ", " ++ [dquote] ++ bytes "limit" ++ [dquote] ++ bytes ": "
  ++ [dquote] ++ bytes "1".
Definition query_inner_quote : list byte := bytes "a" ++ [dquote] ++ bytes "b".

(** The sizes [size_t] can hold and the body buffer can take: the limits
    within which [execute_query] has a defined outcome. *)
Definition within_limits (env : transport) (U Q : list byte) : Prop :=
  len U + 20 < 2 ^ SIZE_WIDTH ∧ len Q ≤ 1010 ∧
  len (concat (respond env (query_request U Q)).1) + 1 < 2 ^ SIZE_WIDTH.

(** ** Notions used by the further properties *)

(** The buffer of a [MemoryStruct] starts with the bytes [data], and
    [size] counts them.  This is so for the chunk [execute_query] sets up
    ([malloc(1)], size 0, no data). *)
Definition buffer_starts (w : world) (mem : MemoryStruct) (data : list byte) : Prop :=
  ∃ b cells, memory mem = Some b ∧ heap w !! b = Some cells
             ∧ take (length data) cells = Byte <$> data ∧ size mem = len data.

(** The buffer is exactly [data] and a terminator. *)
Definition buffer_holds (w : world) (mem : MemoryStruct) (data : list byte) : Prop :=
  ∃ b, memory mem = Some b ∧ heap w !! b = Some ((Byte <$> data) ++ [Byte NUL])
       ∧ size mem = len data.

(** The part of [data] before its first NUL: what is read from a buffer
    holding [data] by a caller that has only the pointer. *)
Fixpoint until_NUL (data : list byte) : list byte :=
  match data with
  | [] => []
  | b :: rest => if decide (b = NUL) then [] else b :: until_NUL rest
  end.

(** The bytes a JSON string takes unescaped: no quote, no backslash, no
    control character.  Those from 0x80 up must still make up UTF-8
    sequences, see [utf8]. *)
Definition json_plain (b : byte) : bool :=
  bool_decide (b ≠ dquote) && bool_decide (b ≠ backslash) && negb (is_control b).

(** The status line [execute_query] prints for a transfer that ended with
    [code]. *)
Definition status_report (code : Z) : list diagnostic :=
  if decide (code ≠ CURLE_OK) then [PerformFailed code] else [].

(** * Properties *)

(** ** Running computations *)

Lemma bind_run {A B} (m : M A) (k : A → M B) w a w1 :
  m w = Done (a, w1) → (m ≫= k) w = k a w1.
Proof. intros E. unfold mbind, M_bind. by rewrite E. Qed.

Lemma bind_undefined {A B} (m : M A) (k : A → M B) w :
  m w = Undefined → (m ≫= k) w = Undefined.
Proof. intros E. unfold mbind, M_bind. by rewrite E. Qed.

Lemma bind_inv {A B} (m : M A) (k : A → M B) w r :
  (m ≫= k) w = Done r → ∃ a w1, m w = Done (a, w1) ∧ k a w1 = Done r.
Proof.
  unfold mbind, M_bind. destruct (m w) as [[a w1]|]; [|done].
  intros E. by exists a, w1.
Qed.

Lemma ret_run {A} (a : A) w : (mret a : M A) w = Done (a, w).
Proof. done. Qed.

Lemma len_app {A} (l k : list A) : len (l ++ k) = len l + len k.
Proof. unfold len. rewrite length_app. lia. Qed.

Lemma len_nonneg {A} (l : list A) : 0 ≤ len l.
Proof. unfold len. lia. Qed.

Lemma size_t_small z : 0 ≤ z < 2 ^ SIZE_WIDTH → size_t z = z.
Proof. intros. unfold size_t. by apply Z.mod_small. Qed.

Lemma size_t_range z : 0 ≤ size_t z < 2 ^ SIZE_WIDTH.
Proof. unfold size_t. apply Z.mod_pos_bound. done. Qed.

(** ** Strings in memory *)

Lemma read_cstring_stored (s : list byte) (rest : list memval) :
  NUL ∉ s → read_cstring ((Byte <$> s) ++ Byte NUL :: rest) = Some s.
Proof.
  induction s as [|b s IH]; intros Hs; [done|].
  change (read_cstring ((Byte <$> b :: s) ++ Byte NUL :: rest))
    with (if decide (b = NUL) then Some []
          else cons b <$> read_cstring ((Byte <$> s) ++ Byte NUL :: rest)).
  rewrite decide_False by (intros ->; apply Hs; left).
  rewrite IH; [done|]. intros ?. apply Hs. by right.
Qed.

Lemma read_cstring_no_NUL cells s : read_cstring cells = Some s → NUL ∉ s.
Proof.
  revert s. induction cells as [|[|b] cells IH]; intros s; simpl; try done.
  destruct (decide (b = NUL)) as [->|Hb].
  - intros [= <-]. apply not_elem_of_nil.
  - destruct (read_cstring cells) as [s'|]; simpl; [|done].
    intros [= <-]. intros [E|?]%elem_of_cons; [done|]. by eapply IH.
Qed.

Lemma cstring_at_block w p s :
  cstring_at w p s ↔
  ∃ b cells, p = Some b ∧ heap w !! b = Some cells ∧ read_cstring cells = Some s.
Proof.
  unfold cstring_at, string_at. split.
  - destruct p as [b|]; [|done]. simpl.
    destruct (heap w !! b) as [cells|] eqn:Hb; [|done]. simpl. intros Hs.
    by exists b, cells.
  - intros (b & cells & -> & Hb & Hs). simpl. rewrite Hb. done.
Qed.

Lemma load_cstring_run w p s :
  cstring_at w p s → load_cstring p w = Done (s, w).
Proof.
  intros (b & cells & -> & Hb & Hs)%cstring_at_block. unfold load_cstring.
  rewrite Hb. simpl. by rewrite Hs.
Qed.

Lemma load_cstring_inv w p s w1 :
  load_cstring p w = Done (s, w1) → w1 = w ∧ cstring_at w p s.
Proof.
  unfold load_cstring. destruct p as [b|]; [|done].
  destruct (heap w !! b) as [cells|] eqn:Hb; simpl; [|done].
  destruct (read_cstring cells) as [s'|] eqn:Hs; [|done].
  intros [= <- <-]. split; [done|]. apply cstring_at_block. by exists b, cells.
Qed.

Lemma cstring_at_live w b s : cstring_at w (Some b) s → b ∈ dom (heap w).
Proof.
  intros (b' & c & [= <-] & Hb & _)%cstring_at_block. by eapply elem_of_dom_2.
Qed.

Lemma cstring_at_no_NUL w p s : cstring_at w p s → NUL ∉ s.
Proof.
  intros (b & c & _ & _ & Hs)%cstring_at_block. by eapply read_cstring_no_NUL.
Qed.

Lemma fresh_not_live (h : gmap nat (list memval)) : h !! fresh (dom h) = None.
Proof. apply not_elem_of_dom, is_fresh. Qed.

Lemma fresh_ne_live (h : gmap nat (list memval)) b : b ∈ dom h → fresh (dom h) ≠ b.
Proof. intros Hb E. apply (is_fresh (dom h)). by rewrite E. Qed.

(** A string written at the start of a large enough block can be read back. *)
Lemma store_cstring_run w b cells s :
  heap w !! b = Some cells → len s + 1 ≤ len cells →
  store_bytes (Some b) 0 (s ++ [NUL]) w
  = Done (tt, set_heap (<[b := (Byte <$> s) ++ Byte NUL
                              :: drop (length s + 1) cells]> (heap w)) w).
Proof.
  intros Hb Hlen. unfold store_bytes. rewrite Hb.
  rewrite decide_True by (rewrite len_app; unfold len in *; simpl; lia).
  simpl. by rewrite fmap_app, length_app, <- app_assoc.
Qed.

Lemma malloc_run n w :
  malloc n w = Done (Some (fresh (dom (heap w))),
                     set_heap (<[fresh (dom (heap w)) := replicate (Z.to_nat n) Undef]>
                                 (heap w)) w).
Proof. done. Qed.

Lemma strdup_run w p s :
  cstring_at w p s →
  strdup p w = Done (Some (fresh (dom (heap w))),
                     set_heap (<[fresh (dom (heap w)) := Byte <$> (s ++ [NUL])]>
                                 (heap w)) w).
Proof.
  intros Hs. unfold strdup.
  erewrite bind_run by by apply load_cstring_run.
  erewrite bind_run by apply malloc_run.
  erewrite bind_run.
  2:{ apply store_cstring_run.
      - simpl. apply lookup_insert_eq.
      - unfold len. rewrite length_replicate. pose proof (len_nonneg s). unfold len in *. lia. }
  rewrite ret_run. simpl. rewrite insert_insert_eq.
  rewrite drop_ge by (rewrite length_replicate; unfold len; lia).
  by rewrite fmap_app.
Qed.
Lemma string_at_agree w w1 p :
  (∀ b, p = Some b → heap w1 !! b = heap w !! b) → string_at w1 p = string_at w p.
Proof.
  intros H. unfold string_at. destruct p as [b|]; [|done]. simpl.
  by rewrite (H b eq_refl).
Qed.

Lemma string_at_stored w b s h :
  NUL ∉ s → heap w = <[b := Byte <$> (s ++ [NUL])]> h → string_at w (Some b) = Some s.
Proof.
  intros Hs Hh. unfold string_at. simpl. rewrite Hh, lookup_insert_eq. simpl.
  rewrite fmap_app. by apply read_cstring_stored.
Qed.

(** ** Connection lifecycle *)

Lemma initialize_connection_run w url U :
  cstring_at w url U →
  initialize_connection url w
  = Done (0, set_server_url (Some (fresh (dom (heap w))))
               (set_heap (<[fresh (dom (heap w)) := Byte <$> (U ++ [NUL])]> (heap w)) w)).
Proof.
  intros HU. unfold initialize_connection.
  destruct url as [b|]; [|by apply cstring_at_block in HU as (? & ? & ? & _)].
  erewrite bind_run by by apply strdup_run. done.
Qed.

Lemma close_connection_run w b :
  server_url w = Some b → b ∈ dom (heap w) →
  close_connection w = Done (tt, set_server_url NULL (set_heap (delete b (heap w)) w)).
Proof.
  intros Hb [c Hc]%elem_of_dom. unfold close_connection.
  erewrite bind_run by done. simpl. rewrite Hb.
  erewrite bind_run; [done|]. unfold free. by rewrite Hc.
Qed.

Lemma close_connection_unset w :
  server_url w = NULL → close_connection w = Done (tt, w).
Proof. intros Hb. unfold close_connection. erewrite bind_run by done. simpl. by rewrite Hb. Qed.

Lemma execute_query_unset env query w :
  server_url w = NULL ∨ query = NULL → execute_query env query w = Done (NULL, w).
Proof.
  intros H. unfold execute_query. erewrite bind_run by done. simpl.
  by rewrite decide_True.
Qed.

(** ** The write callback *)

Lemma store_bytes_run w b cells off data :
  heap w !! b = Some cells → 0 ≤ off → off + len data ≤ len cells →
  store_bytes (Some b) off data w
  = Done (tt, set_heap (<[b := take (Z.to_nat off) cells ++ (Byte <$> data)
                              ++ drop (Z.to_nat off + length data) cells]> (heap w)) w).
Proof.
  intros Hb H0 Hlen. unfold store_bytes. rewrite Hb. by rewrite decide_True.
Qed.

Lemma realloc_fault w p n rest :
  realloc_faults w = true :: rest →
  realloc p n w = Done (NULL, set_realloc_faults rest w).
Proof. intros E. unfold realloc. by rewrite E. Qed.

Lemma realloc_grow w b cells n :
  head (realloc_faults w) ≠ Some true → heap w !! b = Some cells →
  realloc (Some b) n w
  = Done (Some (fresh (dom (heap w))),
          set_heap (<[fresh (dom (heap w)) := resize (Z.to_nat n) Undef cells]>
                      (delete b (heap w)))
                   (set_realloc_faults (tail (realloc_faults w)) w)).
Proof.
  intros Hf Hb. unfold realloc.
  destruct (realloc_faults w) as [|[] rest] eqn:E; simpl in *; try done;
    by rewrite Hb.
Qed.

Lemma WriteMemoryCallback_fault w contents item_size nmemb mem rest :
  realloc_faults w = true :: rest →
  WriteMemoryCallback contents item_size nmemb mem w
  = Done ((0, mem), set_console (console w ++ [NotEnoughMemory])
                      (set_realloc_faults rest w)).
Proof.
  intros E. unfold WriteMemoryCallback.
  erewrite bind_run by by apply realloc_fault. done.
Qed.

Lemma grow_cells (cells : list memval) (data c : list byte) :
  take (length data) cells = Byte <$> data →
  let R := resize (length data + length c + 1) Undef cells in
  let cells1 := take (length data) R ++ (Byte <$> c)
                ++ drop (length data + length c) R in
  take (length data + length c) cells1 ++ (Byte <$> [NUL])
    ++ drop (length data + length c + 1) cells1
  = (Byte <$> data ++ c) ++ [Byte NUL].
Proof.
  intros Hdata R cells1.
  assert (length data ≤ length cells)%nat as Hle.
  { apply (f_equal length) in Hdata. rewrite length_take, length_fmap in Hdata. lia. }
  assert (take (length data) R = Byte <$> data) as HR.
  { unfold R. rewrite resize_spec, take_app_le by (rewrite length_take; lia).
    rewrite take_take. rewrite Nat.min_l by lia. done. }
  assert (length R = length data + length c + 1)%nat as HlenR
    by (unfold R; apply length_resize).
  assert (length cells1 = length data + length c + 1)%nat as Hlen1.
  { unfold cells1. rewrite !length_app, length_take, length_fmap, length_drop. lia. }
  assert (take (length data + length c) cells1 = Byte <$> data ++ c) as ->.
  { unfold cells1. rewrite HR, app_assoc, <- fmap_app.
    apply take_app_length'. by rewrite length_fmap, length_app. }
  rewrite drop_ge by lia. by rewrite app_nil_r.
Qed.

Lemma to_nat_len {A} (l : list A) : Z.to_nat (len l) = length l.
Proof. unfold len. lia. Qed.

Lemma WriteMemoryCallback_grow w b cells HK data c :
  heap w = <[b := cells]> HK → HK !! b = None →
  head (realloc_faults w) ≠ Some true →
  take (length data) cells = Byte <$> data →
  len data + len c + 1 < 2 ^ SIZE_WIDTH →
  WriteMemoryCallback c 1 (len c) {| memory := Some b; size := len data |} w
  = Done ((len c, {| memory := Some (fresh (dom (heap w))); size := len (data ++ c) |}),
          set_heap (<[fresh (dom (heap w)) := (Byte <$> data ++ c) ++ [Byte NUL]]> HK)
                   (set_realloc_faults (tail (realloc_faults w)) w)).
Proof.
  intros Hh Hnone Hf Hdata Hsz. unfold WriteMemoryCallback.
  pose proof (len_nonneg data). pose proof (len_nonneg c).
  cbn [memory size].
  rewrite Z.mul_1_l. rewrite (size_t_small (len c)) by lia.
  rewrite (size_t_small (len data + len c + 1)) by lia.
  erewrite bind_run.
  2:{ apply realloc_grow; [done|]. rewrite Hh. apply lookup_insert_eq. }
  cbv beta iota. cbn [memory size].
  rewrite (size_t_small (len data + len c)) by lia.
  unfold memcpy. rewrite decide_True by lia.
  rewrite to_nat_len, firstn_all.
  erewrite bind_run.
  2:{ apply store_bytes_run; [apply lookup_insert_eq|lia|].
      unfold len. rewrite length_resize. unfold len in *. lia. }
  erewrite bind_run.
  2:{ apply store_bytes_run; [apply lookup_insert_eq|lia|].
      unfold len. rewrite !length_app, length_take, length_fmap, length_drop, length_resize.
      unfold len in *. simpl. lia. }
  rewrite ret_run. f_equal. f_equal.
  - by rewrite len_app.
  - cbn [heap set_heap]. rewrite !insert_insert_eq.
    rewrite Hh, delete_insert_eq, delete_id by done.
    unfold set_heap; cbn. f_equal. f_equal.
    replace (Z.to_nat (len data + len c)) with (length data + length c)%nat
      by (unfold len; lia).
    replace (Z.to_nat (len data + len c + 1)) with (length data + length c + 1)%nat
      by (unfold len; lia).
    rewrite to_nat_len. by apply grow_cells.
Qed.


Lemma accepted_not_grown faults chunks :
  grown faults chunks = false → accepted faults chunks = [].
Proof.
  revert faults. induction chunks as [|c rest IH]; intros faults; [done|].
  destruct faults as [|[] faults']; simpl; try done.
  case_decide; [apply IH|done].
Qed.

(** ** Delivery of a response body *)

Lemma deliver_run chunks : ∀ w b cells data HK,
  heap w = <[b := cells]> HK → HK !! b = None →
  take (length data) cells = Byte <$> data →
  len data + len (concat chunks) + 1 < 2 ^ SIZE_WIDTH →
  let data' := data ++ concat (accepted (realloc_faults w) chunks) in
  ∃ taken b' cells' w',
    deliver WriteMemoryCallback chunks {| memory := Some b; size := len data |} w
    = Done ((taken, {| memory := Some b'; size := len data' |}), w')
    ∧ heap w' = <[b' := cells']> HK ∧ HK !! b' = None
    ∧ take (length data') cells' = Byte <$> data'
    ∧ (if grown (realloc_faults w) chunks
       then cells' = (Byte <$> data') ++ [Byte NUL]
       else b' = b ∧ cells' = cells)
    ∧ net w' = net w ∧ server_url w' = server_url w.
Proof.
  induction chunks as [|c rest IH]; intros w b cells data HK Hh Hnone Hdata Hsz data'.
  - exists true, b, cells, w. unfold data'. simpl. rewrite app_nil_r. done.
  - simpl in Hsz. rewrite len_app in Hsz.
    pose proof (len_nonneg c). pose proof (len_nonneg (concat rest)).
    cbn [deliver].
    destruct (realloc_faults w) as [|[] faults'] eqn:Hf.
    2:{ (* realloc fails *)
      erewrite bind_run by by apply WriteMemoryCallback_fault.
      cbv beta iota. unfold data'. cbn [accepted grown].
      destruct (decide (len c = 0)) as [Hc|Hc].
      - rewrite decide_True by done.
        destruct (IH (set_console (console w ++ [NotEnoughMemory])
                        (set_realloc_faults faults' w)) b cells data HK)
          as (taken & b' & cells' & w' & Hrun & ?); [done..|lia|].
        exists taken, b', cells', w'. cbn [realloc_faults set_console set_realloc_faults] in *.
        done.
      - rewrite decide_False by done.
        exists false, b, cells, (set_console (console w ++ [NotEnoughMemory])
                        (set_realloc_faults faults' w)).
        simpl. rewrite app_nil_r. done. }
    all: erewrite bind_run by (apply WriteMemoryCallback_grow with (cells := cells) (HK := HK);
                               [done|done|by rewrite Hf|done|lia]).
    all: cbv beta iota; rewrite decide_True by done.
    all: rewrite Hf; cbn [tail].
    all: assert (HK !! fresh (dom (heap w)) = None) as Hfresh
      by (pose proof (fresh_not_live (heap w)) as Hn;
          set (b1 := fresh (dom (heap w))) in *; rewrite Hh in Hn;
          apply lookup_insert_None in Hn; tauto).
    all: match goal with |- context [set_realloc_faults ?f _] =>
      destruct (IH (set_heap (<[fresh (dom (heap w)) := (Byte <$> data ++ c) ++ [Byte NUL]]> HK)
                          (set_realloc_faults f w))
                       (fresh (dom (heap w))) ((Byte <$> data ++ c) ++ [Byte NUL])
                       (data ++ c) HK)
      as (taken & b' & cells' & w' & Hrun & Hh' & Hn' & Htake & Hg & Hnet & Hsrv);
      [done | done | apply take_app_length'; by rewrite length_fmap
      | rewrite len_app; lia | ] end.
    all: exists taken, b', cells', w'.
    all: unfold data'; cbn [accepted grown tail realloc_faults set_heap
                            set_realloc_faults net server_url concat] in *.
    all: rewrite <- app_assoc in *.
    all: split; [done|]; repeat split; try done.
    all: destruct (grown _ rest) eqn:Hgr; [done|].
    all: destruct Hg as [-> ->]; apply accepted_not_grown in Hgr; rewrite Hgr.
    all: simpl; by rewrite !app_nil_r.
Qed.

(** ** What a transfer leaves alone *)

Lemma store_bytes_inv w p off data w1 :
  store_bytes p off data w = Done (tt, w1) →
  ∃ b cells cells', p = Some b ∧ heap w !! b = Some cells ∧
    0 ≤ off ∧ off + len data ≤ len cells ∧
    w1 = set_heap (<[b := cells']> (heap w)) w.
Proof.
  unfold store_bytes. destruct p as [b|]; [|done].
  destruct (heap w !! b) as [cells|] eqn:Hb; [|done].
  case_decide as Hlen; [|done]. intros [= <-].
  eexists b, cells, _. repeat split; try done; lia.
Qed.

Lemma realloc_inv w p n q w1 :
  realloc p n w = Done (q, w1) →
  net w1 = net w ∧ server_url w1 = server_url w ∧
  ((q = NULL ∧ heap w1 = heap w) ∨
   (∃ cells, q = Some (fresh (dom (heap w))) ∧
      heap w1 = <[fresh (dom (heap w)) := cells]>
                  (match p with Some b => delete b (heap w) | None => heap w end) ∧
      ∀ b, p = Some b → b ∈ dom (heap w))).
Proof.
  unfold realloc.
  destruct (realloc_faults w) as [|[] rest] eqn:E.
  2:{ intros [= <- <-]. repeat split; try done. by left. }
  all: destruct p as [b|]; cbn [heap set_realloc_faults];
    [destruct (heap w !! b) as [cells|] eqn:Hb; [|done]|].
  all: intros [= <- <-]; repeat split; try done; right; eexists;
    repeat split; try done.
  all: intros ? [= <-]; by eapply elem_of_dom_2.
Qed.

Lemma WriteMemoryCallback_frame contents item_size nmemb mem w r mem' w' :
  WriteMemoryCallback contents item_size nmemb mem w = Done ((r, mem'), w') →
  net w' = net w ∧ server_url w' = server_url w ∧
  (memory mem ≠ NULL → memory mem' ≠ NULL) ∧
  (∀ b x, memory mem ≠ Some b → heap w !! b = Some x →
          heap w' !! b = Some x ∧ memory mem' ≠ Some b).
Proof.
  unfold WriteMemoryCallback. intros H.
  apply bind_inv in H as (q & w1 & Hre & H).
  apply realloc_inv in Hre as (Hnet1 & Hsrv1 & [[-> Hh1]|(cells & -> & Hh1 & Hlive)]).
  - apply bind_inv in H as ([] & w2 & Hp & H). injection Hp as <-.
    injection H as <- <- <-. cbn. rewrite Hh1. repeat split; try done; congruence.
  - apply bind_inv in H as ([] & w2 & Hcp & H).
    apply bind_inv in H as ([] & w3 & Hst & H). injection H as <- <- <-.
    unfold memcpy in Hcp. case_decide; [|done]. cbn [memory size] in *.
    apply store_bytes_inv in Hcp as (b2 & c2 & c2' & [= <-] & _ & _ & _ & ->).
    apply store_bytes_inv in Hst as (b3 & c3 & c3' & [= <-] & _ & _ & _ & ->).
    cbn. split_and!; [congruence|congruence|done|].
    intros b x Hb Hx.
    assert (fresh (dom (heap w)) ≠ b) as Hne
      by (apply fresh_ne_live; by eapply elem_of_dom_2).
    split; [|congruence].
    rewrite !lookup_insert_ne, Hh1, lookup_insert_ne by done.
    destruct (memory mem) as [b0|] eqn:Hm; [|done].
    rewrite lookup_delete_ne; [done|congruence].
Qed.

Lemma deliver_frame chunks : ∀ mem w taken mem' w',
  deliver WriteMemoryCallback chunks mem w = Done ((taken, mem'), w') →
  net w' = net w ∧ server_url w' = server_url w ∧
  (memory mem ≠ NULL → memory mem' ≠ NULL) ∧
  (∀ b x, memory mem ≠ Some b → heap w !! b = Some x →
          heap w' !! b = Some x ∧ memory mem' ≠ Some b).
Proof.
  induction chunks as [|c rest IH]; intros mem w taken mem' w' H.
  - injection H as <- <- <-. done.
  - cbn [deliver] in H. apply bind_inv in H as ([n mem1] & w1 & Hcb & H).
    apply WriteMemoryCallback_frame in Hcb as (Hnet1 & Hsrv1 & Hnn1 & Hfr1).
    cbv beta iota in H. case_decide.
    + apply IH in H as (Hnet2 & Hsrv2 & Hnn2 & Hfr2).
      split_and!; [congruence|congruence|tauto|].
      intros b x Hb Hx. destruct (Hfr1 b x Hb Hx) as [Hx1 Hb1].
      by destruct (Hfr2 b x Hb1 Hx1).
    + injection H as <- <- <-. done.
Qed.

(** ** [execute_query], step by step *)

Lemma format_Lit w s f r :
  format f w = Done (r, w) → format (Lit s :: f) w = Done (s ++ r, w).
Proof. intros Hf. cbn [format]. by erewrite bind_run. Qed.

Lemma format_Str w p s f r :
  cstring_at w p s → format f w = Done (r, w) →
  format (Str p :: f) w = Done (s ++ r, w).
Proof.
  intros Hs Hf. cbn [format]. erewrite bind_run by by apply load_cstring_run.
  by erewrite bind_run.
Qed.

Lemma format_url w p s lit :
  cstring_at w p s → format [Str p; Lit lit] w = Done (s ++ lit, w).
Proof.
  intros Hs. erewrite format_Str; [|done|by apply format_Lit].
  by rewrite app_nil_r.
Qed.

Lemma format_body w p s l1 l2 :
  cstring_at w p s → format [Lit l1; Str p; Lit l2] w = Done (l1 ++ s ++ l2, w).
Proof.
  intros Hs. erewrite format_Lit; [|erewrite format_Str; [|done|by apply format_Lit]; done].
  by rewrite app_nil_r.
Qed.

Lemma cstring_at_stored w b s rest :
  NUL ∉ s → heap w !! b = Some ((Byte <$> s) ++ Byte NUL :: rest) →
  cstring_at w (Some b) s.
Proof.
  intros Hs Hb. apply cstring_at_block. eexists b, _. split; [done|].
  split; [done|]. by apply read_cstring_stored.
Qed.

Lemma sprintf_run w b cells f s :
  format f w = Done (s, w) → heap w !! b = Some cells → len s + 1 ≤ len cells →
  sprintf (Some b) f w
  = Done (len s, set_heap (<[b := (Byte <$> s) ++ Byte NUL
                                 :: drop (length s + 1) cells]> (heap w)) w).
Proof.
  intros Hf Hb Hlen. unfold sprintf. erewrite bind_run by done.
  erewrite bind_run by by apply store_cstring_run. done.
Qed.

Lemma cstring_at_set_heap w h p s :
  cstring_at w p s → (∀ b, p = Some b → h !! b = heap w !! b) →
  cstring_at (set_heap h w) p s.
Proof.
  unfold cstring_at. intros <- H. by apply string_at_agree.
Qed.

Lemma execute_query_path_no_NUL : NUL ∉ execute_query_path.
Proof. apply (bool_decide_unpack _). by vm_compute. Qed.

Lemma post_data_open_no_NUL : NUL ∉ post_data_open.
Proof. apply (bool_decide_unpack _). by vm_compute. Qed.

Lemma post_data_close_no_NUL : NUL ∉ post_data_close.
Proof. apply (bool_decide_unpack _). by vm_compute. Qed.

Lemma not_elem_of_app_2 (x : byte) l k : x ∉ l → x ∉ k → x ∉ l ++ k.
Proof. intros ?? [?|?]%elem_of_app; done. Qed.

Lemma bind_bind_run {A B C} (m : M A) (k1 : A → M B) (k2 : B → M C) w a w1 :
  m w = Done (a, w1) → ((m ≫= k1) ≫= k2) w = (k1 a ≫= k2) w1.
Proof. intros E. unfold mbind, M_bind. by rewrite E. Qed.

Lemma curl_easy_perform_run env curl u body w b cells data HK :
  opt_url curl = Some u → opt_post curl = true →
  cstring_at w (opt_postfields curl) body →
  let rq := {| req_post := true; req_url := u;
               req_headers := opt_httpheader curl; req_body := body |} in
  heap w = <[b := cells]> HK → HK !! b = None →
  take (length data) cells = Byte <$> data →
  len data + len (concat (respond env rq).1) + 1 < 2 ^ SIZE_WIDTH →
  let data' := data ++ concat (accepted (realloc_faults w) (respond env rq).1) in
  ∃ res b' cells' w',
    curl_easy_perform WriteMemoryCallback env curl
      {| memory := Some b; size := len data |} w
    = Done ((res, {| memory := Some b'; size := len data' |}), w')
    ∧ heap w' = <[b' := cells']> HK ∧ HK !! b' = None
    ∧ take (length data') cells' = Byte <$> data'
    ∧ (if grown (realloc_faults w) (respond env rq).1
       then cells' = (Byte <$> data') ++ [Byte NUL]
       else b' = b ∧ cells' = cells)
    ∧ net w' = net w ++ [rq] ∧ server_url w' = server_url w.
Proof.
  intros Hu Hpost Hbody rq Hh Hnone Hdata Hsz data'.
  unfold curl_easy_perform. rewrite Hu, Hpost.
  erewrite bind_run by by apply load_cstring_run.
  erewrite bind_run by done.
  destruct (deliver_run (respond env rq).1 (set_net (net w ++ [rq]) w)
              b cells data HK)
    as (taken & b' & cells' & w' & Hrun & Hh' & Hn' & Htake & Hg & Hnet & Hsrv);
    [done..|].
  erewrite bind_run by exact Hrun.
  eexists _, b', cells', w'. split; [done|]. done.
Qed.

Lemma execute_query_run env w bu bq U Q :
  server_url w = Some bu → cstring_at w (Some bu) U → cstring_at w (Some bq) Q →
  easy_init_ok env = true →
  len U + 20 < 2 ^ SIZE_WIDTH → len Q ≤ 1010 →
  len (concat (respond env (query_request U Q)).1) + 1 < 2 ^ SIZE_WIDTH →
  let data := concat (accepted (realloc_faults w) (respond env (query_request U Q)).1) in
  ∃ b' cells' w',
    execute_query env (Some bq) w = Done (Some b', w')
    ∧ heap w' = <[b' := cells']> (heap w) ∧ heap w !! b' = None
    ∧ take (length data) cells' = Byte <$> data
    ∧ (if grown (realloc_faults w) (respond env (query_request U Q)).1
       then cells' = (Byte <$> data) ++ [Byte NUL]
       else cells' = [Undef])
    ∧ net w' = net w ++ [query_request U Q] ∧ server_url w' = server_url w.
Proof.
  intros Hsrv HU HQ Hinit HlenU HlenQ Hresp data.
  pose proof (len_nonneg U). pose proof (len_nonneg Q).
  pose proof (cstring_at_live _ _ _ HU) as HliveU.
  pose proof (cstring_at_live _ _ _ HQ) as HliveQ.
  pose proof (cstring_at_no_NUL _ _ _ HU) as HnulU.
  pose proof (cstring_at_no_NUL _ _ _ HQ) as HnulQ.
  unfold execute_query.
  erewrite bind_run by done. cbv beta. rewrite Hsrv.
  rewrite decide_False by (intros [?|?]; done).
  erewrite bind_run by apply malloc_run.
  set (b0 := fresh (dom (heap w))).
  assert (heap w !! b0 = None) as Hb0 by apply fresh_not_live.
  assert (b0 ≠ bu) as Hb0u by (by apply fresh_ne_live).
  assert (b0 ≠ bq) as Hb0q by (by apply fresh_ne_live).
  set (w1 := set_heap _ w).
  unfold curl_easy_init. rewrite Hinit. erewrite bind_run by done.
  cbv beta iota.
  assert (cstring_at w1 (Some bu) U) as HU1
    by (apply cstring_at_set_heap; [done|]; intros ? [= <-]; by apply lookup_insert_ne).
  unfold strlen at 1.
  erewrite bind_bind_run.
  2:{ erewrite bind_run by by apply load_cstring_run. done. }
  rewrite (size_t_small (len U + 20)) by lia.
  erewrite bind_bind_run by apply malloc_run.
  set (b1 := fresh (dom (heap w1))).
  assert (heap w1 !! b1 = None) as Hb1 by apply fresh_not_live.
  assert (b1 ≠ bu) as Hb1u by (apply fresh_ne_live; by eapply cstring_at_live).
  assert (b1 ≠ b0) as Hb10
    by (apply fresh_ne_live; eapply elem_of_dom_2; apply lookup_insert_eq).
  assert (b1 ≠ bq) as Hb1q.
  { apply fresh_ne_live. apply elem_of_dom. unfold w1. cbn [heap set_heap].
    rewrite lookup_insert_ne by done. by apply elem_of_dom. }
  set (w2 := set_heap _ w1).
  erewrite bind_bind_run.
  2:{ eapply sprintf_run.
      - apply format_url. apply cstring_at_set_heap; [done|].
        intros ? [= <-]. by apply lookup_insert_ne.
      - apply lookup_insert_eq.
      - unfold len. rewrite length_replicate, length_app.
        change (length execute_query_path) with 14%nat. unfold len in *. lia. }
  set (fu := (Byte <$> U ++ execute_query_path) ++ Byte NUL :: _).
  cbn [heap set_heap w2]. rewrite insert_insert_eq.
  set (w3 := set_heap _ w2).
  assert (cstring_at w3 (Some b1) (U ++ execute_query_path)) as Hfu.
  { eapply cstring_at_stored; [|apply lookup_insert_eq].
    apply not_elem_of_app_2; [done|apply execute_query_path_no_NUL]. }
  unfold setopt_URL at 1.
  erewrite bind_bind_run.
  2:{ erewrite bind_run by by apply load_cstring_run. done. }
  unfold auto_array. erewrite bind_bind_run by apply malloc_run.
  set (b2 := fresh (dom (heap w3))).
  assert (heap w3 !! b2 = None) as Hb2 by apply fresh_not_live.
  unfold w3, w2, w1 in Hb2. cbn [heap set_heap] in Hb2.
  apply lookup_insert_None in Hb2 as [Hb2 Hb12].
  apply lookup_insert_None in Hb2 as [Hb2 Hb02].
  assert (b2 ≠ bq) as Hb2q by (intros ->; apply elem_of_dom in HliveQ as [? ?]; congruence).
  set (w4 := set_heap _ w3).
  assert (cstring_at w4 (Some bq) Q) as HQ4.
  { unfold cstring_at in *. rewrite <- HQ. apply string_at_agree.
    intros ? [= <-]. unfold w4, w3, w2, w1. cbn [heap set_heap].
    by rewrite !lookup_insert_ne. }
  erewrite bind_bind_run.
  2:{ eapply sprintf_run.
      - by apply format_body.
      - apply lookup_insert_eq.
      - unfold len. rewrite length_replicate, !length_app.
        change (length post_data_open) with 11%nat.
        change (length post_data_close) with 2%nat.
        change (Z.to_nat POST_DATA_SIZE) with 1024%nat. unfold len in *. lia. }
  set (pd := (Byte <$> post_data_open ++ Q ++ post_data_close) ++ Byte NUL :: _).
  cbn [heap set_heap w4]. rewrite insert_insert_eq.
  set (w5 := set_heap _ w4).
  set (HK := <[b2 := pd]> (<[b1 := fu]> (heap w))).
  assert (heap w5 = <[b0 := [Undef]]> HK) as Hh5.
  { unfold w5, w4, w3, w2, w1, HK. cbn [heap set_heap].
    rewrite (insert_insert_ne _ b0 b2) by done.
    rewrite (insert_insert_ne _ b0 b1) by done. done. }
  assert (HK !! b0 = None) as HK0 by (unfold HK; by rewrite !lookup_insert_ne).
  match goal with |- context [curl_easy_perform _ _ ?c _] => set (curl := c) end.
  destruct (curl_easy_perform_run env curl (U ++ execute_query_path)
              (post_data_open ++ Q ++ post_data_close) w5 b0 [Undef] [] HK)
    as (res & b' & cells' & w' & Hrun & Hh' & Hn' & Htake & Hg & Hnet & Hsrv');
    [done|done| |done|done|done|apply Hresp|].
  { eapply cstring_at_stored; [|apply lookup_insert_eq].
    apply not_elem_of_app_2; [apply post_data_open_no_NUL|].
    apply not_elem_of_app_2; [done|apply post_data_close_no_NUL]. }
  change (len []) with 0 in Hrun.
  erewrite bind_bind_run by exact Hrun. cbv beta iota.
  assert (b' ≠ b1) as Hb'1.
  { intros ->. unfold HK in Hn'. by rewrite lookup_insert_ne, lookup_insert_eq in Hn'. }
  assert (b' ≠ b2) as Hb'2.
  { intros ->. unfold HK in Hn'. by rewrite lookup_insert_eq in Hn'. }
  assert (heap w !! b' = None) as Hwb'.
  { unfold HK in Hn'. by rewrite !lookup_insert_ne in Hn'. }
  assert (heap w !! b1 = None) as Hwb1.
  { unfold w1 in Hb1. cbn [heap set_heap] in Hb1. by rewrite lookup_insert_ne in Hb1. }
  set (w6 := if decide (res ≠ CURLE_OK)
             then set_console (console w' ++ [PerformFailed res]) w' else w').
  assert (heap w6 = heap w' ∧ net w6 = net w' ∧ server_url w6 = server_url w')
    as (Hh6 & Hnet6 & Hsrv6) by (unfold w6; by case_decide).
  erewrite (bind_bind_run _ _ _ w' tt w6) by (unfold w6; by case_decide).
  clearbody w6.
  erewrite (bind_bind_run (free _)).
  2:{ unfold free. rewrite Hh6, Hh'. unfold HK.
      by rewrite lookup_insert_ne, lookup_insert_ne, lookup_insert_eq. }
  unfold end_of_scope. erewrite (bind_bind_run (free _)).
  2:{ unfold free. cbn [heap set_heap].
      by rewrite lookup_delete_ne, lookup_insert_ne, lookup_insert_eq. }
  erewrite bind_run by done. cbn [memory heap set_heap].
  eexists b', cells', _. split; [rewrite ret_run; reflexivity|].
  cbn [heap net server_url set_heap]. rewrite Hnet6, Hsrv6, Hnet, Hsrv'.
  unfold w5, w4, w3, w2, w1. cbn [net server_url set_heap].
  split_and!; try done.
  - apply map_eq. intros i.
    destruct (decide (i = b2)) as [->|]; [by rewrite lookup_delete_eq, lookup_insert_ne|].
    rewrite lookup_delete_ne by done.
    destruct (decide (i = b1)) as [->|]; [by rewrite lookup_delete_eq, lookup_insert_ne|].
    rewrite lookup_delete_ne by done.
    destruct (decide (i = b')) as [->|]; [by rewrite !lookup_insert_eq|].
    by rewrite !lookup_insert_ne.
  - destruct (grown _ _); [done|]. by destruct Hg.
Qed.

Lemma bind_bind_undefined {A B C} (m : M A) (k1 : A → M B) (k2 : B → M C) w :
  m w = Undefined → ((m ≫= k1) ≫= k2) w = Undefined.
Proof. intros E. unfold mbind, M_bind. by rewrite E. Qed.

(** A formatted string that does not fit its destination is a write past
    the end of the block. *)
Lemma sprintf_overflow w b cells f s :
  format f w = Done (s, w) → heap w !! b = Some cells → len cells < len s + 1 →
  sprintf (Some b) f w = Undefined.
Proof.
  intros Hf Hb Hlen. unfold sprintf. erewrite bind_run by done.
  apply bind_undefined. unfold store_bytes. rewrite Hb.
  rewrite decide_False; [done|]. rewrite len_app. change (len [NUL]) with 1. lia.
Qed.

Lemma execute_query_no_handle env w bu bq :
  server_url w = Some bu → easy_init_ok env = false →
  execute_query env (Some bq) w
  = Done (Some (fresh (dom (heap w))),
          set_heap (<[fresh (dom (heap w)) := [Undef]]> (heap w)) w).
Proof.
  intros Hsrv Hinit. unfold execute_query.
  erewrite bind_run by done. cbv beta. rewrite Hsrv.
  rewrite decide_False by (intros [?|?]; done).
  erewrite bind_run by apply malloc_run.
  unfold curl_easy_init. rewrite Hinit. erewrite bind_run by done.
  cbv beta iota. erewrite bind_run by done. done.
Qed.

Lemma free_inv w p w1 :
  free p w = Done (tt, w1) →
  net w1 = net w ∧ server_url w1 = server_url w ∧
  ∀ b x, p ≠ Some b → heap w !! b = Some x → heap w1 !! b = Some x.
Proof.
  unfold free. destruct p as [b0|]; [|by intros [= <-]].
  destruct (heap w !! b0); [|done]. intros [= <-]. cbn. split_and!; try done.
  intros b x Hb Hx. rewrite lookup_delete_ne; [done|congruence].
Qed.

Lemma curl_easy_perform_frame env curl u body mem w res mem' w' :
  opt_url curl = Some u → opt_post curl = true →
  cstring_at w (opt_postfields curl) body →
  curl_easy_perform WriteMemoryCallback env curl mem w = Done ((res, mem'), w') →
  net w' = net w ++ [{| req_post := true; req_url := u;
                        req_headers := opt_httpheader curl; req_body := body |}] ∧
  server_url w' = server_url w ∧
  (memory mem ≠ NULL → memory mem' ≠ NULL) ∧
  (∀ b x, memory mem ≠ Some b → heap w !! b = Some x →
          heap w' !! b = Some x ∧ memory mem' ≠ Some b).
Proof.
  intros Hu Hpost Hbody H. unfold curl_easy_perform in H. rewrite Hu, Hpost in H.
  erewrite bind_run in H by by apply load_cstring_run.
  erewrite bind_run in H by done.
  apply bind_inv in H as ([taken mem1] & w1 & Hdel & H).
  injection H as <- <- <-.
  apply deliver_frame in Hdel as (Hnet & Hsrv & Hnn & Hfr). done.
Qed.

Lemma execute_query_inv env w bu bq U Q r w' :
  server_url w = Some bu → cstring_at w (Some bu) U → cstring_at w (Some bq) Q →
  easy_init_ok env = true →
  execute_query env (Some bq) w = Done (r, w') →
  len U + 15 ≤ size_t (len U + 20) ∧ len Q ≤ 1010 ∧
  net w' = net w ++ [query_request U Q] ∧ server_url w' = server_url w ∧
  r ≠ NULL ∧
  (∀ b x, heap w !! b = Some x → heap w' !! b = Some x ∧ r ≠ Some b).
Proof.
  intros Hsrv HU HQ Hinit Hrun.
  pose proof (len_nonneg U). pose proof (len_nonneg Q).
  pose proof (cstring_at_live _ _ _ HU) as HliveU.
  pose proof (cstring_at_live _ _ _ HQ) as HliveQ.
  pose proof (cstring_at_no_NUL _ _ _ HU) as HnulU.
  pose proof (cstring_at_no_NUL _ _ _ HQ) as HnulQ.
  unfold execute_query in Hrun.
  erewrite bind_run in Hrun by done. cbv beta in Hrun. rewrite Hsrv in Hrun.
  rewrite decide_False in Hrun by (intros [?|?]; done).
  erewrite bind_run in Hrun by apply malloc_run.
  set (b0 := fresh (dom (heap w))) in *.
  assert (heap w !! b0 = None) as Hb0 by apply fresh_not_live.
  assert (b0 ≠ bu) as Hb0u by (by apply fresh_ne_live).
  assert (b0 ≠ bq) as Hb0q by (by apply fresh_ne_live).
  set (w1 := set_heap _ w) in *.
  unfold curl_easy_init in Hrun. rewrite Hinit in Hrun.
  erewrite bind_run in Hrun by done.
  cbv beta iota in Hrun.
  assert (cstring_at w1 (Some bu) U) as HU1
    by (apply cstring_at_set_heap; [done|]; intros ? [= <-]; by apply lookup_insert_ne).
  unfold strlen at 1 in Hrun.
  erewrite bind_bind_run in Hrun.
  2:{ erewrite bind_run by by apply load_cstring_run. done. }
  erewrite bind_bind_run in Hrun by apply malloc_run.
  set (b1 := fresh (dom (heap w1))) in *.
  assert (heap w1 !! b1 = None) as Hb1 by apply fresh_not_live.
  assert (b1 ≠ bu) as Hb1u by (apply fresh_ne_live; by eapply cstring_at_live).
  assert (b1 ≠ b0) as Hb10
    by (apply fresh_ne_live; eapply elem_of_dom_2; apply lookup_insert_eq).
  assert (b1 ≠ bq) as Hb1q.
  { apply fresh_ne_live. apply elem_of_dom. unfold w1. cbn [heap set_heap].
    rewrite lookup_insert_ne by done. by apply elem_of_dom. }
  set (w2 := set_heap _ w1) in *.
  assert (format [Str (Some bu); Lit execute_query_path] w2
          = Done (U ++ execute_query_path, w2)) as Hfmt1.
  { apply format_url. apply cstring_at_set_heap; [done|].
    intros ? [= <-]. by apply lookup_insert_ne. }
  pose proof (size_t_range (len U + 20)) as Hrange.
  destruct (decide (len U + 15 ≤ size_t (len U + 20))) as [HlenU|HlenU].
  2:{ erewrite bind_bind_undefined in Hrun; [done|].
      eapply sprintf_overflow; [exact Hfmt1|apply lookup_insert_eq|].
      unfold len. rewrite length_replicate, length_app.
      change (length execute_query_path) with 14%nat. unfold len in *. lia. }
  erewrite bind_bind_run in Hrun.
  2:{ eapply sprintf_run; [exact Hfmt1|apply lookup_insert_eq|].
      unfold len. rewrite length_replicate, length_app.
      change (length execute_query_path) with 14%nat. unfold len in *. lia. }
  set (fu := (Byte <$> U ++ execute_query_path) ++ Byte NUL :: _) in *.
  cbn [heap set_heap w2] in Hrun. rewrite insert_insert_eq in Hrun.
  set (w3 := set_heap _ w2) in *.
  assert (cstring_at w3 (Some b1) (U ++ execute_query_path)) as Hfu.
  { eapply cstring_at_stored; [|apply lookup_insert_eq].
    apply not_elem_of_app_2; [done|apply execute_query_path_no_NUL]. }
  unfold setopt_URL at 1 in Hrun.
  erewrite bind_bind_run in Hrun.
  2:{ erewrite bind_run by by apply load_cstring_run. done. }
  unfold auto_array in Hrun. erewrite bind_bind_run in Hrun by apply malloc_run.
  set (b2 := fresh (dom (heap w3))) in *.
  assert (heap w3 !! b2 = None) as Hb2 by apply fresh_not_live.
  unfold w3, w2, w1 in Hb2. cbn [heap set_heap] in Hb2.
  apply lookup_insert_None in Hb2 as [Hb2 Hb12].
  apply lookup_insert_None in Hb2 as [Hb2 Hb02].
  assert (b2 ≠ bq) as Hb2q by (intros ->; apply elem_of_dom in HliveQ as [? ?]; congruence).
  set (w4 := set_heap _ w3) in *.
  assert (cstring_at w4 (Some bq) Q) as HQ4.
  { unfold cstring_at in *. rewrite <- HQ. apply string_at_agree.
    intros ? [= <-]. unfold w4, w3, w2, w1. cbn [heap set_heap].
    by rewrite !lookup_insert_ne. }
  destruct (decide (len Q ≤ 1010)) as [HlenQ|HlenQ].
  2:{ erewrite bind_bind_undefined in Hrun; [done|].
      eapply sprintf_overflow; [by apply format_body|apply lookup_insert_eq|].
      unfold len. rewrite length_replicate, !length_app.
      change (length post_data_open) with 11%nat.
      change (length post_data_close) with 2%nat.
      change (Z.to_nat POST_DATA_SIZE) with 1024%nat. unfold len in *. lia. }
  erewrite bind_bind_run in Hrun.
  2:{ eapply sprintf_run.
      - by apply format_body.
      - apply lookup_insert_eq.
      - unfold len. rewrite length_replicate, !length_app.
        change (length post_data_open) with 11%nat.
        change (length post_data_close) with 2%nat.
        change (Z.to_nat POST_DATA_SIZE) with 1024%nat. unfold len in *. lia. }
  set (pd := (Byte <$> post_data_open ++ Q ++ post_data_close) ++ Byte NUL :: _) in *.
  cbn [heap set_heap w4] in Hrun. rewrite insert_insert_eq in Hrun.
  set (w5 := set_heap _ w4) in *.
  apply bind_inv in Hrun as (chunk & w9 & Hrun & Hret).
  injection Hret as <- <-.
  apply bind_inv in Hrun as ([res mem'] & w6 & Hperf & Hrun).
  eapply curl_easy_perform_frame in Hperf as (Hnet6 & Hsrv6 & Hnn6 & Hfr6);
    [|done|done|].
  2:{ eapply cstring_at_stored; [|apply lookup_insert_eq].
      apply not_elem_of_app_2; [apply post_data_open_no_NUL|].
      apply not_elem_of_app_2; [done|apply post_data_close_no_NUL]. }
  apply bind_inv in Hrun as ([] & w7 & Hlog & Hrun).
  assert (heap w7 = heap w6 ∧ net w7 = net w6 ∧ server_url w7 = server_url w6)
    as (Hh7 & Hnet7 & Hsrv7) by (case_decide; by injection Hlog as <-).
  apply bind_inv in Hrun as ([] & w8 & Hfree1 & Hrun).
  apply free_inv in Hfree1 as (Hnet8 & Hsrv8 & Hfr8).
  apply bind_inv in Hrun as ([] & w10 & Hfree2 & Hrun).
  apply free_inv in Hfree2 as (Hnet10 & Hsrv10 & Hfr10).
  injection Hrun as <- <-.
  split_and!; [done|done| | |by apply Hnn6|].
  - rewrite Hnet10, Hnet8, Hnet7, Hnet6. done.
  - rewrite Hsrv10, Hsrv8, Hsrv7, Hsrv6. done.
  - intros b x Hx.
    assert (b ≠ b0) as Hbb0 by congruence.
    assert (b ≠ b1) as Hbb1.
    { intros ->. unfold w1 in Hb1. cbn [heap set_heap] in Hb1.
      rewrite lookup_insert_ne in Hb1 by done. congruence. }
    assert (b ≠ b2) as Hbb2 by congruence.
    destruct (Hfr6 b x) as [Hx6 Hm6]; [cbn; congruence| |].
    { unfold w5, w4, w3, w2, w1. cbn [heap set_heap]. by rewrite !lookup_insert_ne. }
    split; [|done]. apply Hfr10; [congruence|]. apply Hfr8; [congruence|].
    by rewrite Hh7.
Qed.

(** * The contract of the four operations *)

Lemma close_connection_inv w w1 :
  close_connection w = Done (tt, w1) → server_url w1 = NULL.
Proof.
  unfold close_connection. intros H.
  apply bind_inv in H as (p & w2 & [= <- <-] & H).
  destruct (server_url w) as [b|] eqn:Hp.
  - apply bind_inv in H as ([] & w3 & _ & H). by injection H as <-.
  - by injection H as <-.
Qed.

(** C1.  [execute_query] called while the base URL is unset, because the
    library was never initialised or because [close_connection] has run, or
    called with a null query, returns null and leaves the whole state as it
    was; in particular nothing is handed to libcurl.  After
    [close_connection] it does what it does on the initial state. *)
Theorem execute_query_precondition_failure env query w :
  server_url w = NULL ∨ query = NULL ∨ (∃ w0, close_connection w0 = Done (tt, w)) →
  execute_query env query w = Done (NULL, w)
  ∧ sent (execute_query env query w) = net w
  ∧ execute_query env query initial_world = Done (NULL, initial_world).
Proof.
  intros H.
  assert (server_url w = NULL ∨ query = NULL) as H'.
  { destruct H as [?|[?|[w0 ?%close_connection_inv]]]; auto. }
  rewrite (execute_query_unset _ _ _ H').
  split_and!; [done|done|]. apply execute_query_unset. by left.
Qed.

Lemma execute_query_precondition_failure_witness :
  let w := exec close_connection (connected localhost select_1) in
  execute_query (answering [] CURLE_OK) (Some 1%nat) w = Done (NULL, w)
  ∧ sent (execute_query (answering [] CURLE_OK) (Some 1%nat) w) = net w
  ∧ execute_query (answering [] CURLE_OK) (Some 1%nat) initial_world
    = Done (NULL, initial_world).
Proof.
  intros w. apply (execute_query_precondition_failure _ _ w).
  right. right. exists (connected localhost select_1). reflexivity.
Defined.

(** C6.  [initialize_connection(NULL)] returns the non-zero code -1 and
    changes nothing.  With a string [U] it returns 0 and [server_url] then
    points to a block that was not allocated before (so not the caller's),
    holding [U] and its terminator; the rest of the heap, the caller's
    string included, is as before, and a later write of the caller into its
    own buffer does not reach the stored URL.  Two calls in a row leave the
    URL of the second. *)
Theorem initialize_connection_contract :
  (∀ w, initialize_connection NULL w = Done (-1, w))
  ∧ (∀ w url U, cstring_at w url U →
       ∃ b w1,
         initialize_connection url w = Done (0, w1)
         ∧ server_url w1 = Some b ∧ heap w !! b = None ∧ url ≠ Some b
         ∧ heap w1 = <[b := Byte <$> (U ++ [NUL])]> (heap w)
         ∧ stored_url w1 = Some U
         ∧ cstring_at w1 url U
         ∧ (∀ off data w2, store_bytes url off data w1 = Done (tt, w2) →
                           stored_url w2 = Some U)
         ∧ net w1 = net w ∧ console w1 = console w)
  ∧ (∀ w url1 url2 U1 U2, cstring_at w url1 U1 → cstring_at w url2 U2 →
       ∃ w1 w2,
         initialize_connection url1 w = Done (0, w1)
         ∧ initialize_connection url2 w1 = Done (0, w2)
         ∧ stored_url w2 = Some U2).
Proof.
  assert (∀ w url U, cstring_at w url U →
       ∃ b w1,
         initialize_connection url w = Done (0, w1)
         ∧ server_url w1 = Some b ∧ heap w !! b = None ∧ url ≠ Some b
         ∧ heap w1 = <[b := Byte <$> (U ++ [NUL])]> (heap w)
         ∧ stored_url w1 = Some U
         ∧ cstring_at w1 url U
         ∧ (∀ off data w2, store_bytes url off data w1 = Done (tt, w2) →
                           stored_url w2 = Some U)
         ∧ net w1 = net w ∧ console w1 = console w) as Hinit.
  { intros w url U HU. eexists _, _. split; [by apply initialize_connection_run|].
    pose proof (cstring_at_no_NUL _ _ _ HU) as Hnul.
    assert (url ≠ Some (fresh (dom (heap w)))) as Hne.
    { intros ->. apply cstring_at_live in HU. by apply (is_fresh (dom (heap w))). }
    assert (stored_url (set_server_url (Some (fresh (dom (heap w))))
              (set_heap (<[fresh (dom (heap w)) := Byte <$> (U ++ [NUL])]> (heap w)) w))
            = Some U) as Hstored.
    { unfold stored_url. cbn [server_url set_server_url]. by eapply string_at_stored. }
    cbn [server_url heap net console set_server_url set_heap].
    split_and!; try done.
    - apply fresh_not_live.
    - unfold cstring_at in *. rewrite <- HU. apply string_at_agree.
      intros b ->. cbn. apply lookup_insert_ne. congruence.
    - intros off data w2 Hst.
      apply store_bytes_inv in Hst as (b & c & c' & -> & _ & _ & _ & ->).
      rewrite <- Hstored. unfold stored_url. cbn [server_url set_server_url set_heap].
      apply string_at_agree. intros ? [= <-]. cbn.
      apply lookup_insert_ne. congruence. }
  split_and!; [done|done|].
  intros w url1 url2 U1 U2 H1 H2.
  destruct (Hinit w url1 U1 H1) as (b1 & w1 & Hrun1 & _ & Hb1 & _ & Hh1 & _).
  assert (cstring_at w1 url2 U2) as H2'.
  { unfold cstring_at in *. rewrite <- H2. apply string_at_agree.
    intros b ->. rewrite Hh1. apply lookup_insert_ne. intros ->.
    apply cstring_at_live, elem_of_dom in H2 as [? ?]. congruence. }
  destruct (Hinit w1 url2 U2 H2') as (b2 & w2 & Hrun2 & _ & _ & _ & _ & Hs2 & _).
  by exists w1, w2.
Qed.

Lemma initialize_connection_contract_witness :
  (∃ b w1,
     initialize_connection (Some 0%nat) (holding localhost select_1) = Done (0, w1)
     ∧ server_url w1 = Some b ∧ stored_url w1 = Some localhost)
  ∧ (∃ w1 w2,
       initialize_connection (Some 0%nat) (holding localhost select_1) = Done (0, w1)
       ∧ initialize_connection (Some 1%nat) w1 = Done (0, w2)
       ∧ stored_url w2 = Some select_1).
Proof.
  destruct initialize_connection_contract as (_ & H2 & H3). split.
  - destruct (H2 (holding localhost select_1) (Some 0%nat) localhost)
      as (b & w1 & ? & ? & _ & _ & _ & ? & _); [reflexivity|].
    by exists b, w1.
  - apply (H3 (holding localhost select_1) (Some 0%nat) (Some 1%nat)
               localhost select_1); reflexivity.
Defined.

(** C7.  From any state in which [server_url] is null or points to a live
    block, [close_connection] ends with [server_url] null and no stored
    URL; called again it changes nothing and does not fail, so two calls
    in a row leave the state one call leaves. *)
Theorem close_connection_idempotent w :
  (∀ b, server_url w = Some b → b ∈ dom (heap w)) →
  ∃ w1,
    close_connection w = Done (tt, w1)
    ∧ server_url w1 = NULL ∧ stored_url w1 = None
    ∧ close_connection w1 = Done (tt, w1)
    ∧ (close_connection ≫= λ _, close_connection) w = close_connection w.
Proof.
  intros Hlive.
  assert (∃ w1, close_connection w = Done (tt, w1) ∧ server_url w1 = NULL)
    as (w1 & Hrun & Hnull).
  { destruct (server_url w) as [b|] eqn:Hb.
    - eexists. split; [by apply close_connection_run; auto|done].
    - exists w. split; [by apply close_connection_unset|done]. }
  exists w1. split_and!; try done.
  - unfold stored_url. by rewrite Hnull.
  - by apply close_connection_unset.
  - erewrite bind_run by exact Hrun. rewrite Hrun. by apply close_connection_unset.
Qed.

Lemma close_connection_idempotent_witness :
  ∃ w1,
    close_connection (connected localhost select_1) = Done (tt, w1)
    ∧ server_url w1 = NULL ∧ stored_url w1 = None
    ∧ close_connection w1 = Done (tt, w1)
    ∧ (close_connection ≫= λ _, close_connection) (connected localhost select_1)
      = close_connection (connected localhost select_1).
Proof.
  apply close_connection_idempotent.
  intros b [= <-]. apply elem_of_dom. by eexists.
Defined.

(** ** Consequences for whole calls *)

Lemma cstring_at_Some w p s : cstring_at w p s → ∃ b, p = Some b.
Proof. intros (b & ? & -> & _)%cstring_at_block. by exists b. Qed.

Lemma execute_query_defined env w query U Q :
  cstring_at w (server_url w) U → cstring_at w query Q →
  easy_init_ok env = true → within_limits env U Q →
  ∃ b w', execute_query env query w = Done (Some b, w').
Proof.
  intros HU HQ Hinit (HlenU & HlenQ & Hresp).
  destruct (cstring_at_Some _ _ _ HU) as [bu Hbu].
  destruct (cstring_at_Some _ _ _ HQ) as [bq ->]. rewrite Hbu in HU.
  destruct (execute_query_run env w bu bq U Q)
    as (b' & cells' & w' & Hrun & _); try done.
  by exists b', w'.
Qed.

(** What a call with both strings in place hands to libcurl: one transfer
    when [curl_easy_init] gave a handle, none otherwise. *)
Lemma execute_query_sent env w query U Q r w' :
  cstring_at w (server_url w) U → cstring_at w query Q →
  execute_query env query w = Done (r, w') →
  net w' = net w ++ (if easy_init_ok env then [query_request U Q] else [])
  ∧ r ≠ NULL.
Proof.
  intros HU HQ Hrun.
  destruct (cstring_at_Some _ _ _ HU) as [bu Hbu].
  destruct (cstring_at_Some _ _ _ HQ) as [bq ->]. rewrite Hbu in HU.
  destruct (easy_init_ok env) eqn:Hinit.
  - by destruct (execute_query_inv env w bu bq U Q r w') as (_ & _ & ? & _ & ? & _).
  - rewrite (execute_query_no_handle env w bu bq) in Hrun by done.
    injection Hrun as <- <-. cbn. by rewrite app_nil_r.
Qed.

(** C2.  With base URL [U] stored and a query string given, whatever
    [execute_query] asks libcurl for is a POST to exactly [U] followed by
    [/execute_query]: at most one transfer, and exactly one when libcurl
    gives a handle.  Within the size limits the call does complete. *)
Theorem execute_query_posts_to_endpoint env w query U Q :
  cstring_at w (server_url w) U → cstring_at w query Q →
  (∀ r w', execute_query env query w = Done (r, w') →
     ∃ posts, net w' = net w ++ posts
       ∧ (length posts ≤ 1)%nat
       ∧ (easy_init_ok env = true → length posts = 1%nat)
       ∧ ∀ rq, rq ∈ posts →
           req_post rq = true ∧ req_url rq = U ++ bytes "/execute_query")
  ∧ (easy_init_ok env = true → within_limits env U Q →
     ∃ r w', execute_query env query w = Done (r, w')).
Proof.
  intros HU HQ. split.
  - intros r w' Hrun.
    destruct (execute_query_sent _ _ _ _ _ _ _ HU HQ Hrun) as [Hnet _].
    eexists. split; [exact Hnet|].
    destruct (easy_init_ok env); cbn; split_and!; try done; try lia.
    + by intros rq ->%list_elem_of_singleton.
    + by intros rq ?%elem_of_nil.
  - intros Hinit Hlim.
    destruct (execute_query_defined _ _ _ _ _ HU HQ Hinit Hlim) as (b & w' & ?).
    by exists (Some b), w'.
Qed.

Lemma execute_query_posts_to_endpoint_witness :
  ∃ r w',
    execute_query (answering [bytes "ok"] CURLE_OK) (Some 1%nat)
      (connected localhost select_1) = Done (r, w')
    ∧ ∃ posts, net w' = net (connected localhost select_1) ++ posts
        ∧ (length posts ≤ 1)%nat
        ∧ (easy_init_ok (answering [bytes "ok"] CURLE_OK) = true → length posts = 1%nat)
        ∧ ∀ rq, rq ∈ posts →
            req_post rq = true ∧ req_url rq = localhost ++ bytes "/execute_query".
Proof.
  destruct (execute_query_posts_to_endpoint (answering [bytes "ok"] CURLE_OK)
              (connected localhost select_1) (Some 1%nat) localhost select_1)
    as [Hsafe Hlive]; [reflexivity|reflexivity|].
  destruct Hlive as (r & w' & Hrun); [reflexivity|by vm_compute|].
  exists r, w'. split; [exact Hrun|]. by apply (Hsafe r w').
Defined.

(** A call that returns leaves [server_url], and the block it points to,
    alone. *)
Lemma execute_query_keeps_url_block env query w r w' :
  connection_ok w → argument_ok w query →
  execute_query env query w = Done (r, w') →
  server_url w' = server_url w
  ∧ ∀ bu, server_url w = Some bu → heap w' !! bu = heap w !! bu.
Proof.
  intros HU HQ Hrun.
  destruct HU as [HU|[U HU]].
  { rewrite execute_query_unset in Hrun by by left. by injection Hrun as <- <-. }
  destruct HQ as [HQ|[Q HQ]].
  { rewrite execute_query_unset in Hrun by by right. by injection Hrun as <- <-. }
  destruct (cstring_at_Some _ _ _ HU) as [bu Hbu].
  destruct (cstring_at_Some _ _ _ HQ) as [bq ->]. rewrite Hbu in HU.
  pose proof HU as (? & cells & [= <-] & Hcells & _)%cstring_at_block.
  rewrite Hbu. destruct (easy_init_ok env) eqn:Hinit.
  - destruct (execute_query_inv env w bu bq U Q r w')
      as (_ & _ & _ & Hsrv & _ & Hfr); try done.
    split; [congruence|]. intros ? [= <-]. rewrite Hcells. by apply Hfr.
  - rewrite (execute_query_no_handle env w bu bq) in Hrun by done.
    injection Hrun as <- <-. cbn. split; [done|]. intros ? [= <-].
    apply lookup_insert_ne, fresh_ne_live. by eapply elem_of_dom_2.
Qed.

(** C10.  Whatever the connection state (unset, or a stored URL) and the
    query argument (null, or a string), a call of [execute_query] that
    returns, be it with null, after a successful transfer or after a failed
    one, leaves [server_url] and the string it points to as they were. *)
Theorem execute_query_preserves_connection env query w :
  connection_ok w → argument_ok w query →
  ∀ r w', execute_query env query w = Done (r, w') →
    server_url w' = server_url w ∧ stored_url w' = stored_url w.
Proof.
  intros Hok Hq r w' Hrun.
  destruct (execute_query_keeps_url_block env query w r w' Hok Hq Hrun)
    as [Hsrv Hblock].
  split; [done|]. unfold stored_url. rewrite Hsrv.
  destruct (server_url w) as [bu|] eqn:Hbu; [|done].
  apply string_at_agree. intros ? [= <-]. by apply Hblock.
Qed.

Lemma execute_query_preserves_connection_witness :
  ∃ r w',
    execute_query (answering [bytes "ok"] CURLE_COULDNT_CONNECT) (Some 1%nat)
      (connected localhost select_1) = Done (r, w')
    ∧ server_url w' = server_url (connected localhost select_1)
    ∧ stored_url w' = stored_url (connected localhost select_1).
Proof.
  destruct (execute_query (answering [bytes "ok"] CURLE_COULDNT_CONNECT) (Some 1%nat)
              (connected localhost select_1)) as [[r w']|] eqn:Hrun;
    [|by vm_compute in Hrun].
  exists r, w'. split; [reflexivity|].
  apply (execute_query_preserves_connection
           (answering [bytes "ok"] CURLE_COULDNT_CONNECT) (Some 1%nat)
           (connected localhost select_1)) with (r := r).
  - right. exists localhost. reflexivity.
  - right. exists select_1. reflexivity.
  - exact Hrun.
Defined.

(** C8.  The body is formatted into the 1024 bytes of [post_data].  A
    query of at most 1010 bytes gives a body that fits with its terminator,
    and the body given to libcurl is the wrapped query; a longer one takes
    [sprintf] past the end of the array, and the call has no defined
    outcome. *)
Theorem post_data_limit env w query U Q :
  cstring_at w (server_url w) U → cstring_at w query Q →
  easy_init_ok env = true →
  (len Q ≤ 1010 →
     len (post_data_open ++ Q ++ post_data_close) + 1 ≤ POST_DATA_SIZE
     ∧ (∀ r w', execute_query env query w = Done (r, w') →
          ∃ url headers,
            net w' = net w ++ [{| req_post := true; req_url := url;
                                  req_headers := headers;
                                  req_body := post_data_open ++ Q ++ post_data_close |}])
     ∧ (within_limits env U Q → ∃ r w', execute_query env query w = Done (r, w')))
  ∧ (1010 < len Q →
     POST_DATA_SIZE < len (post_data_open ++ Q ++ post_data_close) + 1
     ∧ execute_query env query w = Undefined).
Proof.
  intros HU HQ Hinit.
  assert (len (post_data_open ++ Q ++ post_data_close) = len Q + 13) as Hlen.
  { rewrite !len_app. change (len post_data_open) with 11.
    change (len post_data_close) with 2. lia. }
  rewrite Hlen. change POST_DATA_SIZE with 1024. split.
  - intros HlenQ. split_and!; [lia| |].
    + intros r w' Hrun.
      destruct (execute_query_sent _ _ _ _ _ _ _ HU HQ Hrun) as [Hnet _].
      rewrite Hinit in Hnet. by eexists _, _.
    + intros Hlim.
      destruct (execute_query_defined _ _ _ _ _ HU HQ Hinit Hlim) as (b & w' & ?).
      by exists (Some b), w'.
  - intros HlenQ. split; [lia|].
    destruct (execute_query env query w) as [[r w']|] eqn:Hrun; [|done].
    destruct (cstring_at_Some _ _ _ HU) as [bu Hbu].
    destruct (cstring_at_Some _ _ _ HQ) as [bq ->]. rewrite Hbu in HU.
    destruct (execute_query_inv env w bu bq U Q r w') as (_ & ? & _); try done. lia.
Qed.

Lemma post_data_limit_witness :
  (∃ r w',
     execute_query (answering [] CURLE_OK) (Some 1%nat)
       (connected localhost (replicate 1010 x61)) = Done (r, w'))
  ∧ execute_query (answering [] CURLE_OK) (Some 1%nat)
      (connected localhost (replicate 1011 x61)) = Undefined.
Proof.
  split.
  - destruct (post_data_limit (answering [] CURLE_OK)
                (connected localhost (replicate 1010 x61)) (Some 1%nat)
                localhost (replicate 1010 x61))
      as [Hfit _]; [by vm_compute|by vm_compute|reflexivity|].
    destruct Hfit as (_ & _ & Hlive); [by vm_compute|].
    apply Hlive. by vm_compute.
  - destruct (post_data_limit (answering [] CURLE_OK)
                (connected localhost (replicate 1011 x61)) (Some 1%nat)
                localhost (replicate 1011 x61))
      as [_ Hover]; [by vm_compute|by vm_compute|reflexivity|].
    apply Hover. by vm_compute.
Defined.

(** ** The states of a running program *)

Lemma connection_ok_initial : connection_ok initial_world.
Proof. by left. Qed.

Lemma connection_ok_live w b :
  connection_ok w → server_url w = Some b → b ∈ dom (heap w).
Proof.
  intros [Hn|[U HU]] Hb; [by rewrite Hb in Hn|]. rewrite Hb in HU. by eapply cstring_at_live.
Qed.

Lemma initialize_connection_ok w url rc w' :
  connection_ok w → argument_ok w url →
  initialize_connection url w = Done (rc, w') → connection_ok w'.
Proof.
  intros Hok [->|[U HU]] Hrun.
  - by injection Hrun as <- <-.
  - rewrite (initialize_connection_run _ _ _ HU) in Hrun. injection Hrun as <- <-.
    right. exists U. unfold cstring_at. cbn [server_url set_server_url].
    eapply string_at_stored; [by eapply cstring_at_no_NUL|done].
Qed.

Lemma close_connection_ok w w' :
  close_connection w = Done (tt, w') → connection_ok w'.
Proof. intros ?%close_connection_inv. by left. Qed.

Lemma execute_query_ok env query w r w' :
  connection_ok w → argument_ok w query →
  execute_query env query w = Done (r, w') → connection_ok w'.
Proof.
  intros Hok Hq Hrun.
  destruct (execute_query_keeps_url_block env query w r w' Hok Hq Hrun)
    as [Hsrv Hblock].
  destruct Hok as [Hn|[U HU]]; [left; congruence|].
  right. exists U. rewrite Hsrv. unfold cstring_at in *. rewrite <- HU.
  apply string_at_agree. intros bu Hbu. by apply Hblock.
Qed.

Lemma connection_ok_agree w w' :
  server_url w' = server_url w →
  (∀ b x, server_url w = Some b → heap w !! b = Some x → heap w' !! b = Some x) →
  connection_ok w → connection_ok w'.
Proof.
  intros Hsrv Hh [Hn|[U HU]]; [left; congruence|].
  right. exists U. rewrite Hsrv.
  apply cstring_at_block in HU as (b & cells & Hb & Hcells & HU).
  apply cstring_at_block. exists b, cells. split_and!; try done. by eapply Hh.
Qed.

(** Every state of a running program has [server_url] null or pointing to
    a string. *)
Lemma reachable_connection_ok w : reachable w → connection_ok w.
Proof.
  induction 1 as [|w s p w' _ IH Hrun|w p off data w' _ IH Hp Hrun
                  |w p w' _ IH Hp Hrun|w f _ IH|w url rc w' _ IH Hurl Hrun
                  |w env query r w' _ IH Hq Hrun|w w' _ IH Hrun].
  - apply connection_ok_initial.
  - unfold caller_string in Hrun.
    erewrite bind_run in Hrun by apply malloc_run.
    apply bind_inv in Hrun as ([] & w1 & Hst & Hret). injection Hret as <- <-.
    apply store_bytes_inv in Hst as (b & c & c' & [= <-] & _ & _ & _ & ->).
    apply (connection_ok_agree w); [done| |done].
    intros bu x Hbu Hx. cbn.
    assert (fresh (dom (heap w)) ≠ bu)
      by (apply fresh_ne_live; by eapply elem_of_dom_2).
    by rewrite !lookup_insert_ne.
  - apply store_bytes_inv in Hrun as (b & c & c' & -> & _ & _ & _ & ->).
    apply (connection_ok_agree w); [done| |done].
    intros bu x Hbu Hx. cbn. rewrite lookup_insert_ne; [done|congruence].
  - apply free_inv in Hrun as (_ & Hsrv & Hfr).
    apply (connection_ok_agree w); [done| |done].
    intros bu x Hbu Hx. apply Hfr; [congruence|done].
  - apply (connection_ok_agree w); [done|by intros|done].
  - exact (initialize_connection_ok w url rc w' IH Hurl Hrun).
  - exact (execute_query_ok env query w r w' IH Hq Hrun).
  - exact (close_connection_ok w w' Hrun).
Qed.

(** ** The response buffer *)

Lemma accepted_no_fault faults chunks :
  true ∉ faults → accepted faults chunks = chunks.
Proof.
  revert faults. induction chunks as [|c rest IH]; intros faults Hf; [done|].
  destruct faults as [|[] faults']; cbn [accepted tail].
  - by rewrite IH.
  - exfalso. apply Hf. left.
  - rewrite IH; [done|]. intros ?. apply Hf. by right.
Qed.

Lemma grown_no_fault faults chunks :
  true ∉ faults → chunks ≠ [] → grown faults chunks = true.
Proof.
  intros Hf Hc. destruct chunks as [|c rest]; [done|].
  destruct faults as [|[] faults']; cbn [grown]; try done.
  exfalso. apply Hf. left.
Qed.

(** The block [execute_query] returns, for any schedule of [realloc]
    failures: the bytes of the accepted chunks come first; the terminator
    follows them, and nothing else, once the callback has obtained a block;
    until then the buffer is the one byte of [malloc(1)], never written. *)
Lemma execute_query_buffer env w query U Q :
  cstring_at w (server_url w) U → cstring_at w query Q →
  easy_init_ok env = true → within_limits env U Q →
  let chunks := (respond env (query_request U Q)).1 in
  let data := concat (accepted (realloc_faults w) chunks) in
  ∃ b w',
    execute_query env query w = Done (Some b, w')
    ∧ heap w' !! b
      = Some (if grown (realloc_faults w) chunks
              then (Byte <$> data) ++ [Byte NUL] else [Undef]).
Proof.
  intros HU HQ Hinit (HlenU & HlenQ & Hresp) chunks data.
  destruct (cstring_at_Some _ _ _ HU) as [bu Hbu].
  destruct (cstring_at_Some _ _ _ HQ) as [bq ->]. rewrite Hbu in HU.
  destruct (execute_query_run env w bu bq U Q)
    as (b' & cells' & w' & Hrun & Hh & _ & _ & Hg & _); try done.
  exists b', w'. split; [done|]. rewrite Hh, lookup_insert_eq.
  fold chunks in Hg. fold data in Hg. by destruct (grown _ chunks); subst.
Qed.

(** C4, as the code has it.  When no [realloc] fails, the chunks of a
    non-empty response, handed to the callback in order, end up in the
    returned block as their concatenation followed by the terminator and
    nothing more; for the chunks [ab], [cd], [ef] the caller reads
    [abcdef], 6 bytes. *)
Theorem response_accumulated :
  (let o := execute_query (answering [bytes "ab"; bytes "cd"; bytes "ef"] CURLE_OK)
              (Some 1%nat) (connected localhost select_1) in
   returned_text o = Some (bytes "abcdef") ∧ len (bytes "abcdef") = 6
   ∧ returned_block o = Some ((Byte <$> bytes "abcdef") ++ [Byte NUL]))
  ∧ ∀ env w query U Q,
      cstring_at w (server_url w) U → cstring_at w query Q →
      easy_init_ok env = true → within_limits env U Q →
      true ∉ realloc_faults w →
      (respond env (query_request U Q)).1 ≠ [] →
      ∃ b w',
        execute_query env query w = Done (Some b, w')
        ∧ heap w' !! b
          = Some ((Byte <$> concat (respond env (query_request U Q)).1) ++ [Byte NUL]).
Proof.
  split; [by vm_compute|].
  intros env w query U Q HU HQ Hinit Hlim Hfaults Hchunks.
  destruct (execute_query_buffer env w query U Q) as (b & w' & Hrun & Hb); try done.
  exists b, w'. split; [done|].
  by rewrite Hb, grown_no_fault, accepted_no_fault.
Qed.

Lemma response_accumulated_witness :
  ∃ b w',
    execute_query (answering [bytes "ab"; bytes "cd"; bytes "ef"] CURLE_OK)
      (Some 1%nat) (connected localhost select_1) = Done (Some b, w')
    ∧ heap w' !! b = Some ((Byte <$> bytes "abcdef") ++ [Byte NUL]).
Proof.
  destruct response_accumulated as [_ H].
  apply (H (answering [bytes "ab"; bytes "cd"; bytes "ef"] CURLE_OK)
           (connected localhost select_1) (Some 1%nat) localhost select_1).
  - reflexivity.
  - reflexivity.
  - reflexivity.
  - by vm_compute.
  - apply not_elem_of_nil.
  - discriminate.
Defined.

(** Counterexample to C4 read without its proviso: the response [ab],
    [cd], [ef] with the second [realloc] returning NULL.  The callback is
    handed [ab], then [cd]; it reports the failure, libcurl stops the
    transfer, and the caller reads [ab]: neither what was handed to the
    callback nor the whole response. *)
Lemma response_cut_short_by_realloc :
  let o := execute_query (answering [bytes "ab"; bytes "cd"; bytes "ef"] CURLE_OK)
             (Some 1%nat)
             (set_realloc_faults [false; true] (connected localhost select_1)) in
  returned_text o = Some (bytes "ab")
  ∧ returned_text o ≠ Some (concat [bytes "ab"; bytes "cd"])
  ∧ returned_text o ≠ Some (concat [bytes "ab"; bytes "cd"; bytes "ef"])
  ∧ (∃ r w', o = Done (r, w')
             ∧ console w' = [NotEnoughMemory; PerformFailed CURLE_WRITE_ERROR]).
Proof.
  split_and!; [by vm_compute|by vm_compute|by vm_compute|].
  eexists _, _. split; [vm_compute; reflexivity|]. done.
Qed.


(** C5.  The transfer fails before any byte arrives (connection refused):
    [execute_query] logs the failure and returns the block it got from
    [malloc(1)], whose only byte was never written.  The pointer is not
    null, but what it points to is not the empty string: it has no
    terminator, and a caller that reads it as text reads an indeterminate
    byte. *)
Theorem transport_failure_without_data :
  let o := execute_query (answering [] CURLE_COULDNT_CONNECT) (Some 1%nat)
             (connected localhost select_1) in
  (∃ b w', o = Done (Some b, w')
           ∧ console w' = [PerformFailed CURLE_COULDNT_CONNECT]
           ∧ net w' = [query_request localhost select_1])
  ∧ returned_block o = Some [Undef]
  ∧ returned_text o = None
  ∧ returned_text o ≠ Some [].
Proof.
  split_and!; [|by vm_compute..].
  eexists _, _. split; [vm_compute; reflexivity|]. done.
Qed.

(** ** The request body *)

Lemma json_wrap_post_data Q : json_wrap Q = post_data_open ++ Q ++ post_data_close.
Proof. unfold json_wrap, post_data_open, post_data_close. by rewrite <- !app_assoc. Qed.

Lemma json_wrap_verbatim Q i c :
  Q !! i = Some c → json_wrap Q !! (11 + i)%nat = Some c.
Proof.
  intros Hi. rewrite json_wrap_post_data.
  rewrite lookup_app_r by (change (length post_data_open) with 11%nat; lia).
  change (length post_data_open) with 11%nat.
  replace (11 + i - 11)%nat with i by lia. by apply lookup_app_l_Some.
Qed.

(** C3, as the code has it.  The body [execute_query] gives libcurl to
    post is the query between the two halves of the object literal, byte
    for byte: for [SELECT 1] it is the object with the one member
    [query]; a double
    quote or a backslash of the query sits unescaped at its place in the
    body.  That breaks the JSON for some queries (a quote inside the text,
    a backslash at its end) and not for others. *)
Theorem request_body_raw :
  req_body <$> sent (execute_query (answering [] CURLE_OK) (Some 1%nat)
                       (connected localhost select_1))
  = [bytes "{" ++ [dquote] ++ bytes "query" ++ [dquote] ++ bytes ": " ++ [dquote]
     ++ bytes "SELECT 1" ++ [dquote] ++ bytes "}"]
  ∧ (∀ env w query U Q,
       cstring_at w (server_url w) U → cstring_at w query Q →
       (∀ r w', execute_query env query w = Done (r, w') →
          ∃ posts, net w' = net w ++ posts
                   ∧ ∀ rq, rq ∈ posts → req_body rq = json_wrap Q)
       ∧ (easy_init_ok env = true → within_limits env U Q →
          ∃ r w' rq, execute_query env query w = Done (r, w')
                     ∧ net w' = net w ++ [rq] ∧ req_body rq = json_wrap Q))
  ∧ (∀ Q i c, Q !! i = Some c → json_wrap Q !! (11 + i)%nat = Some c)
  ∧ json_text (json_wrap select_1) = true
  ∧ json_text (json_wrap query_inner_quote) = false
  ∧ json_text (json_wrap [backslash]) = false.
Proof.
  split_and!; [by vm_compute| |apply json_wrap_verbatim|by vm_compute..].
  intros env w query U Q HU HQ. split.
  - intros r w' Hrun.
    destruct (execute_query_sent _ _ _ _ _ _ _ HU HQ Hrun) as [Hnet _].
    eexists. split; [exact Hnet|]. intros rq Hrq.
    destruct (easy_init_ok env); [|by apply elem_of_nil in Hrq].
    apply list_elem_of_singleton in Hrq as ->. by rewrite json_wrap_post_data.
  - intros Hinit Hlim.
    destruct (execute_query_defined _ _ _ _ _ HU HQ Hinit Hlim) as (b & w' & Hrun).
    destruct (execute_query_sent _ _ _ _ _ _ _ HU HQ Hrun) as [Hnet _].
    rewrite Hinit in Hnet. eexists _, _, _. split; [exact Hrun|].
    split; [exact Hnet|]. by rewrite json_wrap_post_data.
Qed.

Lemma request_body_raw_witness :
  ∃ r w' rq,
    execute_query (answering [] CURLE_OK) (Some 1%nat)
      (connected localhost query_inner_quote) = Done (r, w')
    ∧ net w' = net (connected localhost query_inner_quote) ++ [rq]
    ∧ req_body rq = json_wrap query_inner_quote.
Proof.
  destruct request_body_raw as (_ & H & _).
  destruct (H (answering [] CURLE_OK) (connected localhost query_inner_quote)
              (Some 1%nat) localhost query_inner_quote) as [_ Hlive];
    [reflexivity|reflexivity|].
  apply Hlive; [reflexivity|by vm_compute].
Defined.

(** Counterexample to C3 read for every query: one with a backslash and
    one with double quotes, whose bodies are well-formed JSON all the same
    (of another query, or of an object with one more member). *)
Lemma unescaped_query_well_formed :
  backslash ∈ query_newline_escape ∧ dquote ∈ query_closing_quote
  ∧ req_body <$> sent (execute_query (answering [] CURLE_OK) (Some 1%nat)
                         (connected localhost query_newline_escape))
    = [json_wrap query_newline_escape]
  ∧ json_text (json_wrap query_newline_escape) = true
  ∧ req_body <$> sent (execute_query (answering [] CURLE_OK) (Some 1%nat)
                         (connected localhost query_closing_quote))
    = [json_wrap query_closing_quote]
  ∧ json_text (json_wrap query_closing_quote) = true.
Proof.
  split_and!; try by vm_compute.
  - apply (bool_decide_unpack _). by vm_compute.
  - apply (bool_decide_unpack _). by vm_compute.
Qed.

(** * Further properties of the four operations *)

(** ** The connection slot *)

(** X1.  From the unset state, [initialize_connection] followed by
    [close_connection] gives back the state it started from: the copy made
    by the one is released by the other, and nothing of the caller's is
    touched. *)
Theorem initialize_then_close_restores w url U :
  server_url w = NULL → cstring_at w url U →
  ∃ w1, initialize_connection url w = Done (0, w1)
        ∧ stored_url w1 = Some U
        ∧ close_connection w1 = Done (tt, w).
Proof.
  intros Hnull HU. eexists. split; [by apply initialize_connection_run|]. split.
  - unfold stored_url. cbn [server_url set_server_url].
    eapply string_at_stored; [by eapply cstring_at_no_NUL|done].
  - erewrite close_connection_run; [|done|].
    2:{ cbn. apply elem_of_dom. eexists. apply lookup_insert_eq. }
    cbn [heap set_heap set_server_url].
    rewrite delete_insert_id by apply fresh_not_live.
    destruct w. cbn in *. by rewrite Hnull.
Qed.

Lemma initialize_then_close_restores_witness :
  ∃ w1, initialize_connection (Some 0%nat) (holding localhost select_1) = Done (0, w1)
        ∧ stored_url w1 = Some localhost
        ∧ close_connection w1 = Done (tt, holding localhost select_1).
Proof.
  apply (initialize_then_close_restores (holding localhost select_1) (Some 0%nat)
           localhost); reflexivity.
Defined.

(** X2.  [initialize_connection] overwrites [server_url] without releasing
    what it pointed to.  After two calls the copy made by the first is
    still allocated, is no longer the block of [server_url], and
    [close_connection] releases the second copy only: the first stays
    allocated with no pointer of the library left to it. *)
Theorem reinitialize_leaks_first_copy w url1 url2 U1 U2 :
  cstring_at w url1 U1 → cstring_at w url2 U2 →
  ∃ b1 b2 w1 w2 w3,
    initialize_connection url1 w = Done (0, w1) ∧ server_url w1 = Some b1
    ∧ initialize_connection url2 w1 = Done (0, w2) ∧ server_url w2 = Some b2
    ∧ b1 ≠ b2
    ∧ heap w2 !! b1 = Some (Byte <$> (U1 ++ [NUL]))
    ∧ close_connection w2 = Done (tt, w3)
    ∧ server_url w3 = NULL
    ∧ heap w3 !! b2 = None
    ∧ heap w3 !! b1 = Some (Byte <$> (U1 ++ [NUL])).
Proof.
  intros H1 H2.
  set (b1 := fresh (dom (heap w))).
  set (w1 := set_server_url (Some b1)
               (set_heap (<[b1 := Byte <$> (U1 ++ [NUL])]> (heap w)) w)).
  assert (cstring_at w1 url2 U2) as H2'.
  { unfold cstring_at in *. rewrite <- H2. apply string_at_agree.
    intros b ->. cbn. apply lookup_insert_ne, fresh_ne_live.
    by eapply cstring_at_live. }
  set (b2 := fresh (dom (heap w1))).
  set (w2 := set_server_url (Some b2)
               (set_heap (<[b2 := Byte <$> (U2 ++ [NUL])]> (heap w1)) w1)).
  assert (b2 ≠ b1) as Hne.
  { apply fresh_ne_live. apply elem_of_dom. eexists. apply lookup_insert_eq. }
  exists b1, b2, w1, w2, (set_server_url NULL (set_heap (delete b2 (heap w2)) w2)).
  split_and!; try done.
  - by apply initialize_connection_run.
  - by apply initialize_connection_run.
  - cbn. by rewrite lookup_insert_ne, lookup_insert_eq.
  - apply close_connection_run; [done|].
    apply elem_of_dom. eexists. apply lookup_insert_eq.
  - cbn. apply lookup_delete_eq.
  - cbn. by rewrite lookup_delete_ne, lookup_insert_ne, lookup_insert_eq.
Qed.

Lemma reinitialize_leaks_first_copy_witness :
  ∃ b1 b2 w1 w2 w3,
    initialize_connection (Some 0%nat) (holding localhost select_1) = Done (0, w1)
    ∧ server_url w1 = Some b1
    ∧ initialize_connection (Some 1%nat) w1 = Done (0, w2) ∧ server_url w2 = Some b2
    ∧ b1 ≠ b2
    ∧ heap w2 !! b1 = Some (Byte <$> (localhost ++ [NUL]))
    ∧ close_connection w2 = Done (tt, w3)
    ∧ server_url w3 = NULL
    ∧ heap w3 !! b2 = None
    ∧ heap w3 !! b1 = Some (Byte <$> (localhost ++ [NUL])).
Proof.
  apply (reinitialize_leaks_first_copy (holding localhost select_1)
           (Some 0%nat) (Some 1%nat) localhost select_1); reflexivity.
Defined.

(** X3.  In every state a program reaches through the four operations
    (placing, writing and freeing only blocks of its own), [server_url] is
    null or points to a live string, and [close_connection] completes: it
    never frees a pointer that was freed before. *)
Theorem close_connection_always_defined w :
  reachable w →
  connection_ok w
  ∧ ∃ w1, close_connection w = Done (tt, w1) ∧ server_url w1 = NULL ∧ reachable w1.
Proof.
  intros Hreach. pose proof (reachable_connection_ok w Hreach) as Hok.
  split; [done|].
  assert (∃ w1, close_connection w = Done (tt, w1)) as [w1 Hrun].
  { destruct (server_url w) as [b|] eqn:Hb.
    - eexists. apply close_connection_run; [done|]. by eapply connection_ok_live.
    - eexists. by apply close_connection_unset. }
  exists w1. split_and!; [done|by eapply close_connection_inv|].
  by eapply reach_close.
Qed.

Lemma close_connection_always_defined_witness :
  connection_ok (connected localhost select_1)
  ∧ ∃ w1, close_connection (connected localhost select_1) = Done (tt, w1)
          ∧ server_url w1 = NULL ∧ reachable w1.
Proof.
  apply close_connection_always_defined.
  apply (reach_initialize (holding localhost select_1) (Some 0%nat) 0);
    [|right; exists localhost; reflexivity|reflexivity].
  apply (reach_caller_string (exec (caller_string localhost) initial_world)
           select_1 (Some 1%nat)); [|reflexivity].
  apply (reach_caller_string initial_world localhost (Some 0%nat)); [|reflexivity].
  apply reach_initial.
Defined.

(** ** The write callback *)

Lemma WriteMemoryCallback_items contents item_size nmemb mem :
  item_size * nmemb = len contents →
  WriteMemoryCallback contents item_size nmemb mem
  = WriteMemoryCallback contents 1 (len contents) mem.
Proof. intros H. unfold WriteMemoryCallback. by rewrite H, Z.mul_1_l. Qed.

(** X4.  One call of [WriteMemoryCallback] on a buffer that starts with
    the bytes received so far, for [item_size * nmemb] new bytes.  If
    [realloc] fails, the call returns 0, prints its message and leaves the
    structure and the heap as they were: what was received is not lost.
    Otherwise it returns the count it was given and the buffer is exactly
    the old bytes, the new ones and a terminator. *)
Theorem WriteMemoryCallback_step w mem data contents item_size nmemb :
  buffer_starts w mem data →
  item_size * nmemb = len contents →
  len data + len contents + 1 < 2 ^ SIZE_WIDTH →
  ∃ n mem' w',
    WriteMemoryCallback contents item_size nmemb mem w = Done ((n, mem'), w')
    ∧ ((head (realloc_faults w) = Some true
        ∧ n = 0 ∧ mem' = mem ∧ heap w' = heap w
        ∧ console w' = console w ++ [NotEnoughMemory])
       ∨ (head (realloc_faults w) ≠ Some true
          ∧ n = len contents ∧ buffer_holds w' mem' (data ++ contents)
          ∧ console w' = console w)).
Proof.
  intros (b & cells & Hmem & Hb & Hdata & Hsize) Hitems Hsz.
  rewrite (WriteMemoryCallback_items _ _ _ _ Hitems).
  destruct (realloc_faults w) as [|[] rest] eqn:Hf.
  2:{ eexists _, _, _. split; [by apply WriteMemoryCallback_fault|].
      by left. }
  all: destruct mem as [m sz]; cbn in Hmem, Hsize; subst m sz.
  all: eexists _, _, _; split;
    [apply (WriteMemoryCallback_grow w b cells (delete b (heap w)) data contents);
     [by rewrite insert_delete_id|apply lookup_delete_eq|by rewrite Hf|done|done]|].
  all: right; split_and!; try done.
  all: eexists; split_and!; [done|cbn; apply lookup_insert_eq|done].
Qed.

Lemma WriteMemoryCallback_step_witness :
  let w := exec (malloc 1) initial_world in
  ∃ n mem' w',
    WriteMemoryCallback (bytes "abcdef") 2 3 {| memory := Some 0%nat; size := 0 |} w
    = Done ((n, mem'), w')
    ∧ ((head (realloc_faults w) = Some true
        ∧ n = 0 ∧ mem' = {| memory := Some 0%nat; size := 0 |} ∧ heap w' = heap w
        ∧ console w' = console w ++ [NotEnoughMemory])
       ∨ (head (realloc_faults w) ≠ Some true
          ∧ n = len (bytes "abcdef") ∧ buffer_holds w' mem' ([] ++ bytes "abcdef")
          ∧ console w' = console w)).
Proof.
  intros w.
  apply (WriteMemoryCallback_step w {| memory := Some 0%nat; size := 0 |} []
           (bytes "abcdef") 2 3).
  - exists 0%nat, [Undef]. split_and!; reflexivity.
  - reflexivity.
  - by vm_compute.
Defined.

(** ** Whole calls of [execute_query] *)

(** X5.  When [curl_easy_init] gives no handle, [execute_query] starts
    no transfer and prints nothing, and still returns a pointer that is not
    null: the block of [malloc(1)], never written, behind which there is no
    string.  The query is not even read. *)
Theorem execute_query_without_handle env w query :
  server_url w ≠ NULL → query ≠ NULL → easy_init_ok env = false →
  ∃ b w',
    execute_query env query w = Done (Some b, w')
    ∧ heap w !! b = None ∧ heap w' = <[b := [Undef]]> (heap w)
    ∧ string_at w' (Some b) = None
    ∧ net w' = net w ∧ console w' = console w ∧ server_url w' = server_url w.
Proof.
  intros Hsrv Hq Hinit.
  destruct (server_url w) as [bu|] eqn:Hbu; [|done].
  destruct query as [bq|]; [|done].
  eexists _, _. split; [by apply (execute_query_no_handle env w bu bq)|].
  cbn. split_and!; try done; [apply fresh_not_live|].
  unfold string_at. cbn. by rewrite lookup_insert_eq.
Qed.

Lemma execute_query_without_handle_witness :
  ∃ b w',
    execute_query {| easy_init_ok := false; respond := λ _, ([bytes "ok"], CURLE_OK) |}
      (Some 1%nat) (connected localhost select_1) = Done (Some b, w')
    ∧ heap (connected localhost select_1) !! b = None
    ∧ heap w' = <[b := [Undef]]> (heap (connected localhost select_1))
    ∧ string_at w' (Some b) = None
    ∧ net w' = net (connected localhost select_1)
    ∧ console w' = console (connected localhost select_1)
    ∧ server_url w' = server_url (connected localhost select_1).
Proof.
  apply execute_query_without_handle; [discriminate|discriminate|reflexivity].
Defined.

(** X6.  A call of [execute_query] that returns has not written to or
    freed any block that was allocated before it, the caller's strings
    among them, and the pointer it returns (when not null) is to a block
    that was not allocated before: the result never aliases memory the
    caller already had. *)
Theorem execute_query_leaves_memory_alone env query w r w' :
  connection_ok w → argument_ok w query →
  execute_query env query w = Done (r, w') →
  (∀ b cells, heap w !! b = Some cells → heap w' !! b = Some cells ∧ r ≠ Some b)
  ∧ (∀ p s, cstring_at w p s → cstring_at w' p s).
Proof.
  intros Hok Hq Hrun.
  assert (∀ b cells, heap w !! b = Some cells →
                     heap w' !! b = Some cells ∧ r ≠ Some b) as Hframe.
  { destruct Hok as [HU|[U HU]].
    { rewrite execute_query_unset in Hrun by by left. by injection Hrun as <- <-. }
    destruct Hq as [HQ|[Q HQ]].
    { rewrite execute_query_unset in Hrun by by right. by injection Hrun as <- <-. }
    destruct (cstring_at_Some _ _ _ HU) as [bu Hbu].
    destruct (cstring_at_Some _ _ _ HQ) as [bq ->]. rewrite Hbu in HU.
    destruct (easy_init_ok env) eqn:Hinit.
    - by destruct (execute_query_inv env w bu bq U Q r w') as (_ & _ & _ & _ & _ & ?).
    - rewrite (execute_query_no_handle env w bu bq) in Hrun by done.
      injection Hrun as <- <-. intros b cells Hb.
      assert (fresh (dom (heap w)) ≠ b)
        by (apply fresh_ne_live; by eapply elem_of_dom_2).
      cbn. rewrite lookup_insert_ne by done. split; [done|congruence]. }
  split; [done|]. intros p s (b & cells & -> & Hb & Hs)%cstring_at_block.
  apply cstring_at_block. exists b, cells. split_and!; try done. by apply Hframe.
Qed.

Lemma execute_query_leaves_memory_alone_witness :
  ∃ r w',
    execute_query (answering [bytes "ok"] CURLE_OK) (Some 1%nat)
      (connected localhost select_1) = Done (r, w')
    ∧ cstring_at w' (Some 0%nat) localhost ∧ cstring_at w' (Some 1%nat) select_1.
Proof.
  destruct (execute_query (answering [bytes "ok"] CURLE_OK) (Some 1%nat)
              (connected localhost select_1)) as [[r w']|] eqn:Hrun;
    [|by vm_compute in Hrun].
  exists r, w'. split; [reflexivity|].
  destruct (execute_query_leaves_memory_alone (answering [bytes "ok"] CURLE_OK)
              (Some 1%nat) (connected localhost select_1) r w') as [_ Hstr].
  - right. exists localhost. reflexivity.
  - right. exists select_1. reflexivity.
  - exact Hrun.
  - split; apply Hstr; reflexivity.
Defined.

(** X7.  Two calls of [execute_query] in a row, within the size limits:
    each starts the transfer of its own (nothing is carried over from one
    call to the next), each returns a block of its own, and the block
    returned by the first call is untouched by the second: a result stays
    valid until its owner frees it. *)
Theorem execute_query_twice env w query U Q :
  cstring_at w (server_url w) U → cstring_at w query Q →
  easy_init_ok env = true → within_limits env U Q →
  ∃ b1 w1 b2 w2,
    execute_query env query w = Done (Some b1, w1)
    ∧ execute_query env query w1 = Done (Some b2, w2)
    ∧ net w2 = net w ++ [query_request U Q; query_request U Q]
    ∧ b1 ≠ b2
    ∧ is_Some (heap w1 !! b1) ∧ heap w2 !! b1 = heap w1 !! b1.
Proof.
  intros HU HQ Hinit (HlenU & HlenQ & Hresp).
  destruct (cstring_at_Some _ _ _ HU) as [bu Hbu].
  destruct (cstring_at_Some _ _ _ HQ) as [bq ->]. rewrite Hbu in HU.
  destruct (execute_query_run env w bu bq U Q)
    as (b1 & cells1 & w1 & Hrun1 & Hh1 & Hb1 & _ & _ & Hnet1 & Hsrv1); try done.
  assert (∀ b s, cstring_at w (Some b) s → cstring_at w1 (Some b) s) as Hkeep.
  { intros b s Hs. unfold cstring_at in *. rewrite <- Hs. apply string_at_agree.
    intros ? [= <-]. rewrite Hh1. apply lookup_insert_ne. intros ->.
    apply cstring_at_live, elem_of_dom in Hs as [? ?]. congruence. }
  destruct (execute_query_run env w1 bu bq U Q)
    as (b2 & cells2 & w2 & Hrun2 & Hh2 & Hb2 & _ & _ & Hnet2 & Hsrv2);
    try done; [by rewrite Hsrv1|by apply Hkeep|by apply Hkeep|].
  assert (b2 ≠ b1) as Hne.
  { intros ->. by rewrite Hh1, lookup_insert_eq in Hb2. }
  exists b1, w1, b2, w2. split_and!; try done.
  - by rewrite Hnet2, Hnet1, <- app_assoc.
  - rewrite Hh1, lookup_insert_eq. by eexists.
  - rewrite Hh2. by apply lookup_insert_ne.
Qed.

Lemma execute_query_twice_witness :
  ∃ b1 w1 b2 w2,
    execute_query (answering [bytes "ok"] CURLE_OK) (Some 1%nat)
      (connected localhost select_1) = Done (Some b1, w1)
    ∧ execute_query (answering [bytes "ok"] CURLE_OK) (Some 1%nat) w1
      = Done (Some b2, w2)
    ∧ net w2 = net (connected localhost select_1)
               ++ [query_request localhost select_1; query_request localhost select_1]
    ∧ b1 ≠ b2
    ∧ is_Some (heap w1 !! b1) ∧ heap w2 !! b1 = heap w1 !! b1.
Proof.
  apply (execute_query_twice (answering [bytes "ok"] CURLE_OK)
           (connected localhost select_1) (Some 1%nat) localhost select_1);
    [reflexivity|reflexivity|reflexivity|by vm_compute].
Defined.

(** ** What the caller reads *)

Lemma read_cstring_terminated data :
  read_cstring ((Byte <$> data) ++ [Byte NUL]) = Some (until_NUL data).
Proof.
  induction data as [|b data IH]; [done|].
  change (read_cstring ((Byte <$> b :: data) ++ [Byte NUL]))
    with (if decide (b = NUL) then Some []
          else cons b <$> read_cstring ((Byte <$> data) ++ [Byte NUL])).
  cbn [until_NUL]. case_decide; [done|]. by rewrite IH.
Qed.

Lemma until_NUL_all data : NUL ∉ data → until_NUL data = data.
Proof.
  induction data as [|b data IH]; intros Hn; [done|]. cbn.
  rewrite decide_False by (intros ->; apply Hn; left).
  rewrite IH; [done|]. intros ?. apply Hn. by right.
Qed.

Lemma until_NUL_prefix pre post : NUL ∉ pre → until_NUL (pre ++ NUL :: post) = pre.
Proof.
  induction pre as [|b pre IH]; intros Hn; cbn.
  - by rewrite decide_True.
  - rewrite decide_False by (intros ->; apply Hn; left).
    rewrite IH; [done|]. intros ?. apply Hn. by right.
Qed.

(** X8.  [execute_query] returns the pointer and drops the size.  For a
    non-empty response received without a [realloc] failure, the caller
    reads the whole body when it has no NUL byte, and only what precedes
    the first NUL byte when it has one: the rest is in the block but out of
    the caller's reach. *)
Theorem response_read_up_to_first_NUL env w query U Q :
  cstring_at w (server_url w) U → cstring_at w query Q →
  easy_init_ok env = true → within_limits env U Q →
  true ∉ realloc_faults w →
  (respond env (query_request U Q)).1 ≠ [] →
  let body := concat (respond env (query_request U Q)).1 in
  ∃ b w',
    execute_query env query w = Done (Some b, w')
    ∧ string_at w' (Some b) = Some (until_NUL body)
    ∧ (NUL ∉ body → string_at w' (Some b) = Some body)
    ∧ (∀ pre post, body = pre ++ NUL :: post → NUL ∉ pre →
                   string_at w' (Some b) = Some pre
                   ∧ heap w' !! b = Some ((Byte <$> pre ++ NUL :: post) ++ [Byte NUL])).
Proof.
  intros HU HQ Hinit Hlim Hfaults Hchunks body.
  destruct (execute_query_buffer env w query U Q) as (b & w' & Hrun & Hb); try done.
  rewrite grown_no_fault, accepted_no_fault in Hb by done. fold body in Hb.
  assert (string_at w' (Some b) = Some (until_NUL body)) as Htext.
  { unfold string_at. cbn. rewrite Hb. cbn. apply read_cstring_terminated. }
  exists b, w'. split_and!; try done.
  - intros Hn. by rewrite Htext, until_NUL_all.
  - intros pre post Hbody Hn. rewrite Htext, Hb, Hbody. by rewrite until_NUL_prefix.
Qed.

Lemma response_read_up_to_first_NUL_witness :
  ∃ b w',
    execute_query (answering [bytes "ab"; [NUL]; bytes "cd"] CURLE_OK) (Some 1%nat)
      (connected localhost select_1) = Done (Some b, w')
    ∧ string_at w' (Some b) = Some (bytes "ab")
    ∧ heap w' !! b = Some ((Byte <$> bytes "ab" ++ NUL :: bytes "cd") ++ [Byte NUL]).
Proof.
  destruct (response_read_up_to_first_NUL
              (answering [bytes "ab"; [NUL]; bytes "cd"] CURLE_OK)
              (connected localhost select_1) (Some 1%nat) localhost select_1)
    as (b & w' & Hrun & _ & _ & Hcut);
    [reflexivity|reflexivity|reflexivity|by vm_compute|apply not_elem_of_nil
    |discriminate|].
  exists b, w'. split; [exact Hrun|].
  apply (Hcut (bytes "ab") (bytes "cd")); [reflexivity|].
  apply (bool_decide_unpack _). by vm_compute.
Defined.

Lemma accepted_until_fault pre c post rest :
  len c ≠ 0 →
  accepted (replicate (length pre) false ++ true :: rest) (pre ++ c :: post) = pre.
Proof.
  intros Hc. induction pre as [|p pre IH]; cbn.
  - by rewrite decide_False.
  - by rewrite IH.
Qed.

Lemma grown_until_fault pre c post rest :
  pre ≠ [] →
  grown (replicate (length pre) false ++ true :: rest) (pre ++ c :: post) = true.
Proof. by destruct pre. Qed.

(** X9.  A [realloc] failure in the middle of a response does not lose
    what came before: when the first failure falls on a non-empty chunk
    that is not the first, the block returned holds exactly the chunks
    before it, terminated. *)
Theorem realloc_failure_keeps_earlier_chunks env w query U Q pre c post rest :
  cstring_at w (server_url w) U → cstring_at w query Q →
  easy_init_ok env = true → within_limits env U Q →
  (respond env (query_request U Q)).1 = pre ++ c :: post →
  pre ≠ [] → c ≠ [] →
  realloc_faults w = replicate (length pre) false ++ true :: rest →
  ∃ b w',
    execute_query env query w = Done (Some b, w')
    ∧ heap w' !! b = Some ((Byte <$> concat pre) ++ [Byte NUL]).
Proof.
  intros HU HQ Hinit Hlim Hchunks Hpre Hc Hfaults.
  destruct (execute_query_buffer env w query U Q) as (b & w' & Hrun & Hb); try done.
  rewrite Hchunks, Hfaults in Hb.
  rewrite grown_until_fault, accepted_until_fault in Hb; try done.
  - by exists b, w'.
  - destruct c; [done|]. unfold len. cbn. lia.
Qed.

Lemma realloc_failure_keeps_earlier_chunks_witness :
  ∃ b w',
    execute_query (answering [bytes "ab"; bytes "cd"; bytes "ef"] CURLE_OK)
      (Some 1%nat)
      (set_realloc_faults [false; false; true] (connected localhost select_1))
    = Done (Some b, w')
    ∧ heap w' !! b = Some ((Byte <$> concat [bytes "ab"; bytes "cd"]) ++ [Byte NUL]).
Proof.
  apply (realloc_failure_keeps_earlier_chunks
           (answering [bytes "ab"; bytes "cd"; bytes "ef"] CURLE_OK)
           (set_realloc_faults [false; false; true] (connected localhost select_1))
           (Some 1%nat) localhost select_1
           [bytes "ab"; bytes "cd"] (bytes "ef") [] []);
    [reflexivity|reflexivity|reflexivity|by vm_compute|reflexivity
    |discriminate|discriminate|reflexivity].
Defined.

(** ** Diagnostics *)

Lemma WriteMemoryCallback_quiet contents item_size nmemb mem w r mem' w' :
  WriteMemoryCallback contents item_size nmemb mem w = Done ((r, mem'), w') →
  head (realloc_faults w) ≠ Some true →
  r = size_t (item_size * nmemb) ∧ console w' = console w
  ∧ realloc_faults w' = tail (realloc_faults w).
Proof.
  unfold WriteMemoryCallback. intros H Hf.
  apply bind_inv in H as (q & w1 & Hre & H).
  assert (console w1 = console w ∧ realloc_faults w1 = tail (realloc_faults w)
          ∧ q ≠ NULL) as (Hc1 & Hf1 & Hq).
  { unfold realloc in Hre.
    destruct (realloc_faults w) as [|[] rest] eqn:E; [|by destruct Hf|].
    all: cbn [heap set_realloc_faults] in Hre.
    all: destruct (memory mem) as [b|];
      [destruct (heap w !! b); [|done]|]; injection Hre as <- <-.
    all: by split_and!. }
  destruct q as [b'|]; [|done].
  apply bind_inv in H as ([] & w2 & Hcp & H).
  apply bind_inv in H as ([] & w3 & Hst & H). injection H as <- <- <-.
  unfold memcpy in Hcp. case_decide; [|done]. cbn [memory size] in *.
  apply store_bytes_inv in Hcp as (b2 & c2 & c2' & _ & _ & _ & _ & ->).
  apply store_bytes_inv in Hst as (b3 & c3 & c3' & _ & _ & _ & _ & ->).
  done.
Qed.

Lemma deliver_quiet chunks : ∀ mem w taken mem' w',
  deliver WriteMemoryCallback chunks mem w = Done ((taken, mem'), w') →
  true ∉ realloc_faults w →
  Forall (λ c, len c < 2 ^ SIZE_WIDTH) chunks →
  taken = true ∧ console w' = console w.
Proof.
  induction chunks as [|c rest IH]; intros mem w taken mem' w' H Hf Hlen.
  - by injection H as <- <- <-.
  - cbn [deliver] in H. apply bind_inv in H as ([n mem1] & w1 & Hcb & H).
    apply Forall_cons in Hlen as [Hc Hrest].
    apply WriteMemoryCallback_quiet in Hcb as (-> & Hc1 & Hf1).
    2:{ intros Hh. apply Hf. destruct (realloc_faults w) as [|? ?]; [done|].
        injection Hh as ->. left. }
    cbv beta iota in H. rewrite Z.mul_1_l in H.
    rewrite size_t_small in H by (pose proof (len_nonneg c); lia).
    rewrite decide_True in H by done.
    apply IH in H as [-> Hc2]; [split; [done|congruence]| |done].
    rewrite Hf1. intros Hin. apply Hf.
    destruct (realloc_faults w); [done|]. by right.
Qed.

Lemma free_console w p w1 : free p w = Done (tt, w1) → console w1 = console w.
Proof.
  unfold free. destruct p as [b|]; [|by intros [= <-]].
  destruct (heap w !! b); [|done]. by intros [= <-].
Qed.

Lemma chunks_fit (chunks : list (list byte)) :
  len (concat chunks) + 1 < 2 ^ SIZE_WIDTH →
  Forall (λ c, len c < 2 ^ SIZE_WIDTH) chunks.
Proof.
  induction chunks as [|c rest IH]; intros H; [done|].
  cbn in H. rewrite len_app in H.
  pose proof (len_nonneg c). pose proof (len_nonneg (concat rest)).
  constructor; [lia|]. apply IH. lia.
Qed.

(** What a call that goes through a transfer prints, when the callback
    is not called or no [realloc] fails: the status of the transfer if it
    is not [CURLE_OK], and nothing else. *)
Lemma execute_query_console env w bu bq U Q r w' :
  server_url w = Some bu → cstring_at w (Some bu) U → cstring_at w (Some bq) Q →
  easy_init_ok env = true →
  execute_query env (Some bq) w = Done (r, w') →
  (respond env (query_request U Q)).1 = [] ∨ true ∉ realloc_faults w →
  len (concat (respond env (query_request U Q)).1) + 1 < 2 ^ SIZE_WIDTH →
  console w' = console w ++ status_report (respond env (query_request U Q)).2.
Proof.
  intros Hsrv HU HQ Hinit Hrun Hfaults Hresp.
  pose proof (len_nonneg U). pose proof (len_nonneg Q).
  pose proof (cstring_at_live _ _ _ HU) as HliveU.
  pose proof (cstring_at_live _ _ _ HQ) as HliveQ.
  pose proof (cstring_at_no_NUL _ _ _ HU) as HnulU.
  pose proof (cstring_at_no_NUL _ _ _ HQ) as HnulQ.
  unfold execute_query in Hrun.
  erewrite bind_run in Hrun by done. cbv beta in Hrun. rewrite Hsrv in Hrun.
  rewrite decide_False in Hrun by (intros [?|?]; done).
  erewrite bind_run in Hrun by apply malloc_run.
  set (b0 := fresh (dom (heap w))) in *.
  assert (heap w !! b0 = None) as Hb0 by apply fresh_not_live.
  assert (b0 ≠ bu) as Hb0u by (by apply fresh_ne_live).
  assert (b0 ≠ bq) as Hb0q by (by apply fresh_ne_live).
  set (w1 := set_heap _ w) in *.
  unfold curl_easy_init in Hrun. rewrite Hinit in Hrun.
  erewrite bind_run in Hrun by done.
  cbv beta iota in Hrun.
  assert (cstring_at w1 (Some bu) U) as HU1
    by (apply cstring_at_set_heap; [done|]; intros ? [= <-]; by apply lookup_insert_ne).
  unfold strlen at 1 in Hrun.
  erewrite bind_bind_run in Hrun.
  2:{ erewrite bind_run by by apply load_cstring_run. done. }
  erewrite bind_bind_run in Hrun by apply malloc_run.
  set (b1 := fresh (dom (heap w1))) in *.
  assert (heap w1 !! b1 = None) as Hb1 by apply fresh_not_live.
  assert (b1 ≠ bu) as Hb1u by (apply fresh_ne_live; by eapply cstring_at_live).
  assert (b1 ≠ b0) as Hb10
    by (apply fresh_ne_live; eapply elem_of_dom_2; apply lookup_insert_eq).
  assert (b1 ≠ bq) as Hb1q.
  { apply fresh_ne_live. apply elem_of_dom. unfold w1. cbn [heap set_heap].
    rewrite lookup_insert_ne by done. by apply elem_of_dom. }
  set (w2 := set_heap _ w1) in *.
  assert (format [Str (Some bu); Lit execute_query_path] w2
          = Done (U ++ execute_query_path, w2)) as Hfmt1.
  { apply format_url. apply cstring_at_set_heap; [done|].
    intros ? [= <-]. by apply lookup_insert_ne. }
  pose proof (size_t_range (len U + 20)) as Hrange.
  destruct (decide (len U + 15 ≤ size_t (len U + 20))) as [HlenU|HlenU].
  2:{ erewrite bind_bind_undefined in Hrun; [done|].
      eapply sprintf_overflow; [exact Hfmt1|apply lookup_insert_eq|].
      unfold len. rewrite length_replicate, length_app.
      change (length execute_query_path) with 14%nat. unfold len in *. lia. }
  erewrite bind_bind_run in Hrun.
  2:{ eapply sprintf_run; [exact Hfmt1|apply lookup_insert_eq|].
      unfold len. rewrite length_replicate, length_app.
      change (length execute_query_path) with 14%nat. unfold len in *. lia. }
  set (fu := (Byte <$> U ++ execute_query_path) ++ Byte NUL :: _) in *.
  cbn [heap set_heap w2] in Hrun. rewrite insert_insert_eq in Hrun.
  set (w3 := set_heap _ w2) in *.
  assert (cstring_at w3 (Some b1) (U ++ execute_query_path)) as Hfu.
  { eapply cstring_at_stored; [|apply lookup_insert_eq].
    apply not_elem_of_app_2; [done|apply execute_query_path_no_NUL]. }
  unfold setopt_URL at 1 in Hrun.
  erewrite bind_bind_run in Hrun.
  2:{ erewrite bind_run by by apply load_cstring_run. done. }
  unfold auto_array in Hrun. erewrite bind_bind_run in Hrun by apply malloc_run.
  set (b2 := fresh (dom (heap w3))) in *.
  assert (heap w3 !! b2 = None) as Hb2 by apply fresh_not_live.
  unfold w3, w2, w1 in Hb2. cbn [heap set_heap] in Hb2.
  apply lookup_insert_None in Hb2 as [Hb2 Hb12].
  apply lookup_insert_None in Hb2 as [Hb2 Hb02].
  assert (b2 ≠ bq) as Hb2q by (intros ->; apply elem_of_dom in HliveQ as [? ?]; congruence).
  set (w4 := set_heap _ w3) in *.
  assert (cstring_at w4 (Some bq) Q) as HQ4.
  { unfold cstring_at in *. rewrite <- HQ. apply string_at_agree.
    intros ? [= <-]. unfold w4, w3, w2, w1. cbn [heap set_heap].
    by rewrite !lookup_insert_ne. }
  destruct (decide (len Q ≤ 1010)) as [HlenQ|HlenQ].
  2:{ erewrite bind_bind_undefined in Hrun; [done|].
      eapply sprintf_overflow; [by apply format_body|apply lookup_insert_eq|].
      unfold len. rewrite length_replicate, !length_app.
      change (length post_data_open) with 11%nat.
      change (length post_data_close) with 2%nat.
      change (Z.to_nat POST_DATA_SIZE) with 1024%nat. unfold len in *. lia. }
  erewrite bind_bind_run in Hrun.
  2:{ eapply sprintf_run.
      - by apply format_body.
      - apply lookup_insert_eq.
      - unfold len. rewrite length_replicate, !length_app.
        change (length post_data_open) with 11%nat.
        change (length post_data_close) with 2%nat.
        change (Z.to_nat POST_DATA_SIZE) with 1024%nat. unfold len in *. lia. }
  set (pd := (Byte <$> post_data_open ++ Q ++ post_data_close) ++ Byte NUL :: _) in *.
  cbn [heap set_heap w4] in Hrun. rewrite insert_insert_eq in Hrun.
  set (w5 := set_heap _ w4) in *.
  apply bind_inv in Hrun as (chunk & w9 & Hrun & Hret).
  injection Hret as <- <-.
  apply bind_inv in Hrun as ([res mem'] & w6 & Hperf & Hrun).
  unfold curl_easy_perform in Hperf. cbn [opt_url opt_post setopt_HTTPHEADER
    setopt_POSTFIELDS setopt_POST opt_postfields opt_httpheader] in Hperf.
  erewrite bind_run in Hperf.
  2:{ apply load_cstring_run. eapply cstring_at_stored; [|apply lookup_insert_eq].
      apply not_elem_of_app_2; [apply post_data_open_no_NUL|].
      apply not_elem_of_app_2; [done|apply post_data_close_no_NUL]. }
  erewrite bind_run in Hperf by done.
  apply bind_inv in Hperf as ([taken mem1] & w6' & Hdel & Hperf).
  injection Hperf as <- <- <-.
  assert (taken = true ∧ console w6' = console w5) as [-> Hc6].
  { destruct Hfaults as [Hnil|Hfaults].
    - change (curl_slist_append [] content_type_json)
        with [content_type_json] in Hdel.
      change (respond env _) with (respond env (query_request U Q)) in Hdel.
      rewrite Hnil in Hdel. by injection Hdel as <- <- <-.
    - apply deliver_quiet in Hdel as [-> Hc6]; [by split|done|by apply chunks_fit]. }
  apply bind_inv in Hrun as ([] & w7 & Hlog & Hrun).
  apply bind_inv in Hrun as ([] & w8 & Hfree1 & Hrun).
  apply free_console in Hfree1.
  apply bind_inv in Hrun as ([] & w10 & Hfree2 & Hrun).
  apply free_console in Hfree2.
  injection Hrun as <- <-.
  rewrite Hfree2, Hfree1. unfold status_report.
  change (curl_slist_append [] content_type_json) with [content_type_json] in *.
  fold (query_request U Q) in *.
  change (respond env _) with (respond env (query_request U Q)) in Hlog.
  destruct (decide ((respond env (query_request U Q)).2 ≠ CURLE_OK));
    injection Hlog as <-; cbn; rewrite Hc6; cbn; by rewrite ?app_nil_r.
Qed.

(** X10.  Within the size limits and without a [realloc] failure,
    [execute_query] prints one line, carrying the status of the transfer,
    when [curl_easy_perform] does not return [CURLE_OK], and prints
    nothing when it does. *)
Theorem transfer_status_printed env w query U Q :
  cstring_at w (server_url w) U → cstring_at w query Q →
  easy_init_ok env = true → within_limits env U Q →
  true ∉ realloc_faults w →
  let code := (respond env (query_request U Q)).2 in
  ∃ b w',
    execute_query env query w = Done (Some b, w')
    ∧ (code = CURLE_OK → console w' = console w)
    ∧ (code ≠ CURLE_OK → console w' = console w ++ [PerformFailed code]).
Proof.
  intros HU HQ Hinit Hlim Hfaults code.
  destruct (execute_query_defined _ _ _ _ _ HU HQ Hinit Hlim) as (b & w' & Hrun).
  destruct (cstring_at_Some _ _ _ HU) as [bu Hbu].
  destruct (cstring_at_Some _ _ _ HQ) as [bq ->]. rewrite Hbu in HU.
  pose proof (execute_query_console env w bu bq U Q _ _ Hbu HU HQ Hinit Hrun
                (or_intror Hfaults)) as Hcon.
  destruct Hlim as (_ & _ & Hresp). specialize (Hcon Hresp).
  fold code in Hcon. unfold status_report in Hcon.
  exists b, w'. split; [done|]. split; intros Hcode.
  - rewrite Hcon, decide_False by (by intros ?). by rewrite app_nil_r.
  - by rewrite Hcon, decide_True.
Qed.

Lemma transfer_status_printed_witness :
  ∃ b w',
    execute_query (answering [bytes "partial"] CURLE_COULDNT_CONNECT) (Some 1%nat)
      (connected localhost select_1) = Done (Some b, w')
    ∧ console w' = console (connected localhost select_1)
                   ++ [PerformFailed CURLE_COULDNT_CONNECT].
Proof.
  destruct (transfer_status_printed (answering [bytes "partial"] CURLE_COULDNT_CONNECT)
              (connected localhost select_1) (Some 1%nat) localhost select_1)
    as (b & w' & Hrun & _ & Hfail);
    [reflexivity|reflexivity|reflexivity|by vm_compute|apply not_elem_of_nil|].
  exists b, w'. split; [exact Hrun|]. apply Hfail. discriminate.
Defined.

(** X11.  The status of the transfer does not reach the caller.  Two
    transports that deliver the same chunks and end with different codes
    (success for one, a failure for the other) make [execute_query] ask
    for the same transfer and return blocks with the same contents. *)
Theorem transfer_status_not_returned env1 env2 w query U Q :
  cstring_at w (server_url w) U → cstring_at w query Q →
  easy_init_ok env1 = true → easy_init_ok env2 = true →
  within_limits env1 U Q →
  (respond env1 (query_request U Q)).1 = (respond env2 (query_request U Q)).1 →
  ∃ b1 w1 b2 w2,
    execute_query env1 query w = Done (Some b1, w1)
    ∧ execute_query env2 query w = Done (Some b2, w2)
    ∧ net w1 = net w2
    ∧ heap w1 !! b1 = heap w2 !! b2
    ∧ string_at w1 (Some b1) = string_at w2 (Some b2).
Proof.
  intros HU HQ Hinit1 Hinit2 Hlim1 Hchunks.
  assert (within_limits env2 U Q) as Hlim2.
  { destruct Hlim1 as (? & ? & ?). split_and!; try done. by rewrite <- Hchunks. }
  destruct (execute_query_buffer env1 w query U Q) as (b1 & w1 & Hrun1 & Hb1); try done.
  destruct (execute_query_buffer env2 w query U Q) as (b2 & w2 & Hrun2 & Hb2); try done.
  destruct (execute_query_sent _ _ _ _ _ _ _ HU HQ Hrun1) as [Hnet1 _].
  destruct (execute_query_sent _ _ _ _ _ _ _ HU HQ Hrun2) as [Hnet2 _].
  rewrite Hinit1 in Hnet1. rewrite Hinit2 in Hnet2. rewrite <- Hchunks in Hb2.
  exists b1, w1, b2, w2. split_and!; try done; try congruence.
  unfold string_at. cbn. by rewrite Hb1, Hb2.
Qed.

Lemma transfer_status_not_returned_witness :
  ∃ b1 w1 b2 w2,
    execute_query (answering [bytes "error"] CURLE_OK) (Some 1%nat)
      (connected localhost select_1) = Done (Some b1, w1)
    ∧ execute_query (answering [bytes "error"] CURLE_COULDNT_CONNECT) (Some 1%nat)
        (connected localhost select_1) = Done (Some b2, w2)
    ∧ net w1 = net w2
    ∧ heap w1 !! b1 = heap w2 !! b2
    ∧ string_at w1 (Some b1) = string_at w2 (Some b2).
Proof.
  apply (transfer_status_not_returned (answering [bytes "error"] CURLE_OK)
           (answering [bytes "error"] CURLE_COULDNT_CONNECT)
           (connected localhost select_1) (Some 1%nat) localhost select_1);
    [reflexivity|reflexivity|reflexivity|reflexivity|by vm_compute|reflexivity].
Defined.

(** ** The empty base URL *)







(** ** The header list *)

(** X12.  The header list [execute_query] gives libcurl, through
    [CURLOPT_HTTPHEADER], for every transfer it starts has one entry and
    only one, [Content-Type: application/json].  (The headers of the
    request on the wire are these and the ones libcurl adds of its own;
    they are not the program's.) *)
Theorem execute_query_header_list env w query U Q r w' :
  cstring_at w (server_url w) U → cstring_at w query Q →
  execute_query env query w = Done (r, w') →
  ∃ posts, net w' = net w ++ posts
           ∧ (easy_init_ok env = true → ∃ rq, posts = [rq])
           ∧ ∀ rq, rq ∈ posts →
                   req_headers rq = [bytes "Content-Type: application/json"].
Proof.
  intros HU HQ Hrun.
  destruct (execute_query_sent _ _ _ _ _ _ _ HU HQ Hrun) as [Hnet _].
  eexists. split; [exact Hnet|].
  destruct (easy_init_ok env); split; try done.
  - intros _. by eexists.
  - by intros rq ->%list_elem_of_singleton.
  - by intros rq ?%elem_of_nil.
Qed.

Lemma execute_query_header_list_witness :
  ∃ r w' posts,
    execute_query (answering [bytes "ok"] CURLE_OK) (Some 1%nat)
      (connected localhost select_1) = Done (r, w')
    ∧ net w' = net (connected localhost select_1) ++ posts
    ∧ (∃ rq, posts = [rq])
    ∧ ∀ rq, rq ∈ posts →
            req_headers rq = [bytes "Content-Type: application/json"].
Proof.
  destruct (execute_query (answering [bytes "ok"] CURLE_OK) (Some 1%nat)
              (connected localhost select_1)) as [[r w']|] eqn:Hrun;
    [|by vm_compute in Hrun].
  destruct (execute_query_header_list (answering [bytes "ok"] CURLE_OK)
              (connected localhost select_1) (Some 1%nat) localhost select_1 r w')
    as (posts & Hnet & Hone & Hall); [reflexivity|reflexivity|exact Hrun|].
  exists r, w', posts. split; [reflexivity|]. split; [exact Hnet|].
  split; [by apply Hone|exact Hall].
Defined.

(** ** Queries and JSON *)

Lemma json_plain_spec b :
  json_plain b = true → b ≠ dquote ∧ b ≠ backslash ∧ is_control b = false.
Proof.
  unfold json_plain. intros [[H1 H2]%andb_prop H3]%andb_prop.
  apply bool_decide_eq_true in H1, H2. apply negb_true_iff in H3. done.
Qed.

Lemma byte_in_not_control lo hi c :
  (32 ≤ lo)%N → byte_in lo hi c = true → is_control c = false.
Proof.
  unfold byte_in, is_control. intros Hlo H%bool_decide_eq_true.
  apply bool_decide_eq_false. lia.
Qed.

Lemma utf8_2_tail b c1 : utf8_2 b c1 = true → is_control c1 = false.
Proof.
  unfold utf8_2, utf8_tail. intros [_ H]%andb_prop.
  by eapply byte_in_not_control, H.
Qed.

Lemma utf8_3_tail b c1 c2 :
  utf8_3 b c1 c2 = true → is_control c1 = false ∧ is_control c2 = false.
Proof.
  unfold utf8_3, utf8_tail. intros [H1 H2]%andb_prop. split.
  - repeat (apply orb_prop in H1 as [H1|H1]);
      apply andb_prop in H1 as [_ H1]; by eapply byte_in_not_control, H1.
  - by eapply byte_in_not_control, H2.
Qed.

Lemma utf8_4_tail b c1 c2 c3 :
  utf8_4 b c1 c2 c3 = true →
  is_control c1 = false ∧ is_control c2 = false ∧ is_control c3 = false.
Proof.
  unfold utf8_4, utf8_tail. intros [[H1 H2]%andb_prop H3]%andb_prop. split_and!.
  - repeat (apply orb_prop in H1 as [H1|H1]);
      apply andb_prop in H1 as [_ H1]; by eapply byte_in_not_control, H1.
  - by eapply byte_in_not_control, H2.
  - by eapply byte_in_not_control, H3.
Qed.

(** In well-formed UTF-8 a character is one to four bytes; in a string of
    plain bytes [json_chars] steps over it. *)
Lemma utf8_character b r :
  utf8 (b :: r) = true →
  ∃ k r', r = k ++ r' ∧ utf8 r' = true
          ∧ ∀ t, b ≠ dquote → b ≠ backslash → is_control b = false →
                 json_chars (b :: r ++ t) = json_chars (r' ++ t).
Proof.
  cbn [utf8]. intros H.
  destruct (is_ascii b) eqn:E1.
  { exists [], r. split_and!; [done|done|]. intros t H1 H2 H3. cbn [json_chars].
    by rewrite decide_False, decide_False, H3, E1. }
  destruct r as [|c1 r1]; [done|].
  destruct (utf8_2 b c1) eqn:E2.
  { exists [c1], r1. split_and!; [done|done|]. intros t H1 H2 H3. cbn [json_chars app].
    by rewrite decide_False, decide_False, H3, E1, E2. }
  destruct r1 as [|c2 r2]; [done|].
  destruct (utf8_3 b c1 c2) eqn:E3.
  { exists [c1; c2], r2. split_and!; [done|done|]. intros t H1 H2 H3.
    cbn [json_chars app]. by rewrite decide_False, decide_False, H3, E1, E2, E3. }
  destruct r2 as [|c3 r3]; [done|].
  destruct (utf8_4 b c1 c2 c3) eqn:E4; [|done].
  exists [c1; c2; c3], r3. split_and!; [done|done|]. intros t H1 H2 H3.
  cbn [json_chars app]. by rewrite decide_False, decide_False, H3, E1, E2, E3, E4.
Qed.

Lemma json_chars_plain Q rest :
  Forall (λ b, json_plain b = true) Q → utf8 Q = true →
  json_chars (Q ++ dquote :: rest) = Some rest.
Proof.
  intros Hplain Hutf.
  remember (length Q) as n eqn:Hn. revert Q Hplain Hutf Hn.
  induction (lt_wf n) as [n _ IH]. intros Q Hplain Hutf ->.
  destruct Hplain as [|b Q Hb Hplain].
  { cbn [app json_chars]. by rewrite decide_True. }
  destruct (json_plain_spec b Hb) as (H1 & H2 & H3).
  destruct (utf8_character b Q Hutf) as (k & Q' & -> & Hutf' & Hstep).
  cbn [app]. rewrite Hstep by done.
  apply Forall_app in Hplain as [_ Hplain].
  eapply IH; [|done|done|done]. cbn [length]. rewrite length_app. lia.
Qed.

Lemma json_chars_at_control c post :
  is_control c = true → json_chars (c :: post) = None.
Proof.
  intros Hc. cbn [json_chars].
  rewrite decide_False, decide_False, Hc; [done| |]; intros ->; by vm_compute in Hc.
Qed.

(** A plain byte opens a character of up to four bytes, or the string is
    refused; the bytes after the first are none of them control
    characters. *)
Lemma json_chars_character b r :
  b ≠ dquote → b ≠ backslash → is_control b = false →
  json_chars (b :: r) = None
  ∨ ∃ k r', r = k ++ r' ∧ Forall (λ x, is_control x = false) k
            ∧ json_chars (b :: r) = json_chars r'.
Proof.
  intros H1 H2 H3. cbn [json_chars]. rewrite decide_False, decide_False, H3 by done.
  destruct (is_ascii b); [right; by exists [], r|].
  destruct r as [|c1 r1]; [by left|].
  destruct (utf8_2 b c1) eqn:E2.
  { right. exists [c1], r1. apply utf8_2_tail in E2. by repeat constructor. }
  destruct r1 as [|c2 r2]; [by left|].
  destruct (utf8_3 b c1 c2) eqn:E3.
  { right. exists [c1; c2], r2. apply utf8_3_tail in E3 as [? ?]. by repeat constructor. }
  destruct r2 as [|c3 r3]; [by left|].
  destruct (utf8_4 b c1 c2 c3) eqn:E4; [|by left].
  right. exists [c1; c2; c3], r3. apply utf8_4_tail in E4 as (? & ? & ?).
  by repeat constructor.
Qed.

Lemma control_after_tail (k pre : list byte) c post r :
  Forall (λ x, is_control x = false) k → is_control c = true →
  pre ++ c :: post = k ++ r →
  ∃ pre', pre = k ++ pre' ∧ r = pre' ++ c :: post.
Proof.
  intros Hk Hc. revert pre. induction Hk as [|x k Hx _ IH]; intros pre E.
  - by exists pre.
  - destruct pre as [|y pre]; cbn in E; injection E as -> E; [congruence|].
    destruct (IH pre E) as (pre' & -> & ->). by exists pre'.
Qed.

Lemma json_chars_control pre c post :
  Forall (λ b, json_plain b = true) pre → is_control c = true →
  json_chars (pre ++ c :: post) = None.
Proof.
  intros Hpre Hc.
  remember (length pre) as n eqn:Hn. revert pre Hpre Hn.
  induction (lt_wf n) as [n _ IH]. intros pre Hpre ->.
  destruct Hpre as [|b pre Hb Hpre]; [by apply json_chars_at_control|].
  destruct (json_plain_spec b Hb) as (H1 & H2 & H3).
  cbn [app].
  destruct (json_chars_character b (pre ++ c :: post) H1 H2 H3)
    as [->|(k & r' & E & Hk & ->)]; [done|].
  destruct (control_after_tail k pre c post r' Hk Hc E) as (pre' & -> & ->).
  apply Forall_app in Hpre as [_ Hpre].
  eapply IH; [|done|done]. cbn [length]. rewrite length_app. lia.
Qed.

Lemma skip_ws_not_ws b r : is_ws b = false → skip_ws (b :: r) = b :: r.
Proof. intros H. cbn [skip_ws]. by rewrite H. Qed.

Lemma skip_ws_ws b r : is_ws b = true → skip_ws (b :: r) = skip_ws r.
Proof. intros H. cbn [skip_ws]. by rewrite H. Qed.

Lemma json_value_string n r : json_value (S n) (dquote :: r) = json_chars r.
Proof. cbn [json_value]. by rewrite decide_True. Qed.

Lemma json_value_object n r :
  json_value (S n) (x7b :: dquote :: r) = json_members n (dquote :: r).
Proof.
  cbn [json_value]. rewrite decide_False by done. rewrite decide_True by done.
  rewrite skip_ws_not_ws by reflexivity. by rewrite decide_False.
Qed.

Lemma json_members_member n r :
  json_members (S n) (dquote :: r)
  = r1 ← json_chars r;
    match skip_ws r1 with
    | c :: r2 =>
        if decide (c = x3a) then
          r3 ← json_value n (skip_ws r2);
          match skip_ws r3 with
          | d :: r4 =>
              if decide (d = x7d) then Some r4
              else if decide (d = x2c) then json_members n (skip_ws r4)
              else None
          | [] => None
          end
        else None
    | [] => None
    end.
Proof. cbn [json_members]. by rewrite decide_True. Qed.

(** The JSON reading of a body comes down to the reading of the query as
    the inside of a string. *)
Lemma json_text_wrap Q :
  json_text (json_wrap Q)
  = match r3 ← json_chars (Q ++ [dquote; x7d]);
          match skip_ws r3 with
          | d :: r4 =>
              if decide (d = x7d) then Some r4
              else if decide (d = x2c)
                   then json_members (S (11 + length Q)) (skip_ws r4)
              else None
          | [] => None
          end
    with
    | Some r => bool_decide (skip_ws r = [])
    | None => false
    end.
Proof.
  unfold json_text.
  change (json_wrap Q)
    with (x7b :: dquote :: bytes "query"
          ++ dquote :: x3a :: x20 :: dquote :: Q ++ [dquote; x7d]).
  assert (length (x7b :: dquote :: bytes "query"
                  ++ dquote :: x3a :: x20 :: dquote :: Q ++ [dquote; x7d])
          = S (S (11 + length Q))) as ->.
  { cbn [length]. rewrite !length_app. cbn [length].
    change (length (bytes "query")) with 5%nat.
    rewrite length_app. cbn [length]. lia. }
  rewrite skip_ws_not_ws by reflexivity.
  rewrite json_value_object, json_members_member.
  rewrite json_chars_plain by (repeat constructor).
  cbn [mbind option_bind].
  rewrite skip_ws_not_ws by reflexivity. rewrite decide_True by done.
  rewrite skip_ws_ws by reflexivity. rewrite skip_ws_not_ws by reflexivity.
  rewrite json_value_string. reflexivity.
Qed.

(** X13.  A query that is well-formed UTF-8 (plain ASCII, for one) and
    has no double quote, no backslash and no control character gives a body
    that is well-formed JSON, and that body is the one of every transfer
    [execute_query] asks for.  Without the proviso on the encoding it is
    not so: the bytes [ff 80] are none of the three, and no JSON text holds
    them. *)
Theorem plain_query_body_well_formed env w query U Q r w' :
  cstring_at w (server_url w) U → cstring_at w query Q →
  Forall (λ b, json_plain b = true) Q → utf8 Q = true →
  execute_query env query w = Done (r, w') →
  (∃ posts, net w' = net w ++ posts
            ∧ (easy_init_ok env = true → ∃ rq, posts = [rq])
            ∧ ∀ rq, rq ∈ posts →
                    req_body rq = json_wrap Q ∧ json_text (req_body rq) = true)
  ∧ Forall (λ b, json_plain b = true) (bytes "SELECT " ++ [xff; x80])
  ∧ json_text (json_wrap (bytes "SELECT " ++ [xff; x80])) = false.
Proof.
  intros HU HQ Hplain Hutf Hrun.
  assert (json_text (json_wrap Q) = true) as Hjson.
  { rewrite json_text_wrap.
    rewrite (json_chars_plain Q [x7d]) by done. cbn [mbind option_bind].
    rewrite skip_ws_not_ws by reflexivity. by rewrite decide_True. }
  destruct (execute_query_sent _ _ _ _ _ _ _ HU HQ Hrun) as [Hnet _].
  split_and!; [|by (repeat constructor)|by vm_compute].
  eexists. split; [exact Hnet|].
  destruct (easy_init_ok env); split; try done.
  - intros _. by eexists.
  - intros rq ->%list_elem_of_singleton. cbn [req_body query_request].
    by rewrite <- json_wrap_post_data.
  - by intros rq ?%elem_of_nil.
Qed.

Lemma plain_query_body_well_formed_witness :
  ∃ r w' posts,
    execute_query (answering [bytes "ok"] CURLE_OK) (Some 1%nat)
      (connected localhost select_1) = Done (r, w')
    ∧ net w' = net (connected localhost select_1) ++ posts
    ∧ (∃ rq, posts = [rq])
    ∧ ∀ rq, rq ∈ posts →
            req_body rq = json_wrap select_1 ∧ json_text (req_body rq) = true.
Proof.
  destruct (execute_query (answering [bytes "ok"] CURLE_OK) (Some 1%nat)
              (connected localhost select_1)) as [[r w']|] eqn:Hrun;
    [|by vm_compute in Hrun].
  destruct (plain_query_body_well_formed (answering [bytes "ok"] CURLE_OK)
              (connected localhost select_1) (Some 1%nat) localhost select_1 r w')
    as [(posts & Hnet & Hone & Hall) _];
    [reflexivity|reflexivity|repeat constructor|reflexivity|exact Hrun|].
  exists r, w', posts. split; [reflexivity|]. split; [exact Hnet|].
  split; [by apply Hone|exact Hall].
Defined.

(** X14.  A query whose first byte outside the plain ones is a control
    character (a raw newline or tab, say) gives a body that is not
    well-formed JSON: the character reaches the body as it is, inside the
    string. *)
Theorem control_character_breaks_body env w query U pre c post r w' :
  cstring_at w (server_url w) U → cstring_at w query (pre ++ c :: post) →
  Forall (λ b, json_plain b = true) pre → is_control c = true →
  execute_query env query w = Done (r, w') →
  ∃ posts, net w' = net w ++ posts
           ∧ (easy_init_ok env = true → ∃ rq, posts = [rq])
           ∧ ∀ rq, rq ∈ posts → json_text (req_body rq) = false.
Proof.
  intros HU HQ Hplain Hc Hrun.
  assert (json_text (json_wrap (pre ++ c :: post)) = false) as Hjson.
  { rewrite json_text_wrap.
    replace ((pre ++ c :: post) ++ [dquote; x7d])
      with (pre ++ c :: post ++ [dquote; x7d]) by (by rewrite <- app_assoc).
    by rewrite (json_chars_control pre c (post ++ [dquote; x7d])). }
  destruct (execute_query_sent _ _ _ _ _ _ _ HU HQ Hrun) as [Hnet _].
  eexists. split; [exact Hnet|].
  destruct (easy_init_ok env); split; try done.
  - intros _. by eexists.
  - intros rq ->%list_elem_of_singleton. cbn [req_body query_request].
    by rewrite <- json_wrap_post_data.
  - by intros rq ?%elem_of_nil.
Qed.

Lemma control_character_breaks_body_witness :
  ∃ r w' posts,
    execute_query (answering [bytes "ok"] CURLE_OK) (Some 1%nat)
      (connected localhost (bytes "SELECT 1" ++ x0a :: bytes "FROM t"))
    = Done (r, w')
    ∧ net w' = net (connected localhost (bytes "SELECT 1" ++ x0a :: bytes "FROM t"))
               ++ posts
    ∧ (∃ rq, posts = [rq])
    ∧ ∀ rq, rq ∈ posts → json_text (req_body rq) = false.
Proof.
  destruct (execute_query (answering [bytes "ok"] CURLE_OK) (Some 1%nat)
              (connected localhost (bytes "SELECT 1" ++ x0a :: bytes "FROM t")))
    as [[r w']|] eqn:Hrun; [|by vm_compute in Hrun].
  destruct (control_character_breaks_body (answering [bytes "ok"] CURLE_OK)
              (connected localhost (bytes "SELECT 1" ++ x0a :: bytes "FROM t"))
              (Some 1%nat) localhost (bytes "SELECT 1") x0a (bytes "FROM t") r w')
    as (posts & Hnet & Hone & Hall);
    [reflexivity|reflexivity|repeat constructor|reflexivity|exact Hrun|].
  exists r, w', posts. split; [reflexivity|]. split; [exact Hnet|].
  split; [by apply Hone|exact Hall].
Defined.
